(** * The Ollama content generator: message conversion and prompt-based tool calls

    A shallow embedding of [OllamaContentGenerator] (the variant that validates
    tool names against the declared tools) together with the parts of the
    JavaScript platform it relies on: strings as sequences of UTF-16 code
    units, JSON values, [JSON.parse], [JSON.stringify] and the one regular
    expression the extractor uses. *)

From Stdlib Require Import String Ascii List NArith ZArith Bool Lia.
Import ListNotations.
Local Open Scope N_scope.
Local Open Scope list_scope.

(** ** JavaScript strings *)

Module JS.

(** A string is its list of UTF-16 code units; [length] is [String.length]. *)
Definition jsstring := list N.

(** Literals of the source, written as ASCII text. *)
Definition str (s : string) : jsstring :=
  List.map N_of_ascii (list_ascii_of_string s).

Definition DQUOTE : N := 34.
Definition BACKSLASH : N := 92.
Definition NEWLINE : N := 10.
Definition BACKTICK : N := 96.
Definition LBRACE : N := 123.
Definition RBRACE : N := 125.

Fixpoint eqb (a b : jsstring) : bool :=
  match a, b with
  | [], [] => true
  | x :: a', y :: b' => (x =? y) && eqb a' b'
  | _, _ => false
  end.

(** [s.startsWith(p)] *)
Fixpoint startsWith (p s : jsstring) : bool :=
  match p, s with
  | [], _ => true
  | x :: p', y :: s' => (x =? y) && startsWith p' s'
  | _ :: _, [] => false
  end.

(** [s.slice(n)] for [0 <= n] *)
Definition slice (n : nat) (s : jsstring) : jsstring := skipn n s.

(** [s.substring(a, b)] for [0 <= a <= b] *)
Definition substring (a b : nat) (s : jsstring) : jsstring :=
  firstn (b - a) (skipn a s).

(** [s.indexOf(p)]; [None] stands for [-1]. *)
Fixpoint indexOf (p s : jsstring) : option nat :=
  if startsWith p s then Some O
  else match s with
       | [] => None
       | _ :: s' => option_map S (indexOf p s')
       end.

(** [s.lastIndexOf(c, from)] for a one-unit pattern [c]: the greatest index
    [i <= from] with [s[i] = c]. *)
Fixpoint lastIndexOf_from (c : N) (s : jsstring) (from : nat) : option nat :=
  match s with
  | [] => None
  | x :: s' =>
      let later := match from with
                   | O => None
                   | S from' => option_map S (lastIndexOf_from c s' from')
                   end in
      match later with
      | Some i => Some i
      | None => if x =? c then Some O else None
      end
  end.

(** [s.split('\n')]: never empty, the pieces between the separators. *)
Fixpoint split_nl (s : jsstring) : list jsstring :=
  match s with
  | [] => [[]]
  | c :: s' =>
      if c =? NEWLINE then [] :: split_nl s'
      else match split_nl s' with
           | [] => [[c]]
           | l :: ls => (c :: l) :: ls
           end
  end.

(** [xs.join(sep)] *)
Fixpoint join (sep : jsstring) (xs : list jsstring) : jsstring :=
  match xs with
  | [] => []
  | [x] => x
  | x :: rest => x ++ sep ++ join sep rest
  end.

(** [s.includes(p)] *)
Definition includes (p s : jsstring) : bool :=
  match indexOf p s with Some _ => true | None => false end.

(** White space of the regular-expression class [\s]. *)
Definition is_regex_space (c : N) : bool :=
  (c =? 9) || (c =? 10) || (c =? 11) || (c =? 12) || (c =? 13) || (c =? 32)
  || (c =? 160) || (c =? 5760) || ((8192 <=? c) && (c <=? 8202))
  || (c =? 8232) || (c =? 8233) || (c =? 8239) || (c =? 8287)
  || (c =? 12288) || (c =? 65279).

Fixpoint skip_regex_space (s : jsstring) : jsstring :=
  match s with
  | c :: s' => if is_regex_space c then skip_regex_space s' else s
  | [] => []
  end.

End JS.
Export JS.

(** ** JSON values, [JSON.stringify] and [JSON.parse] *)

Module JSON.

(** A number is kept as the decimal expansion that prints it: sign,
    significant digits [d1 .. dk] (first and last non-zero, [[]] for zero) and
    the position [n] of the decimal point, standing for [0.d1..dk * 10^n].
    These are the [s], [k], [n] of Number::toString.  The model is exact for
    the numbers whose literal has at most 15 significant digits and lies in
    the binary64 range; rounding of longer literals is not modelled, except
    that a literal too small for binary64 reads as zero (it is falsy). *)
Record number := mkNumber {
  nneg : bool;
  ndigits : list N;
  npoint : Z
}.

Definition number_zero : number := mkNumber false [] 0.

(** The values [JSON.parse] can produce.  An object is the list of its own
    properties in property order, keys distinct. *)
#[local] Unset Elimination Schemes.
Inductive value :=
| VNull
| VBool (b : bool)
| VNum (n : number)
| VStr (s : jsstring)
| VArr (items : list value)
| VObj (props : list (jsstring * value)).
#[local] Set Elimination Schemes.

(** JavaScript truthiness (ToBoolean). *)
Definition truthy (v : value) : bool :=
  match v with
  | VNull => false
  | VBool b => b
  | VNum n => match ndigits n with [] => false | _ => true end
  | VStr s => match s with [] => false | _ => true end
  | VArr _ => true
  | VObj _ => true
  end.

(** Truthiness of a value that may be [undefined]. *)
Definition truthy_opt (v : option value) : bool :=
  match v with Some x => truthy x | None => false end.

(** *** Property order of ordinary objects *)

Fixpoint digits_value (ds : list N) (acc : N) : N :=
  match ds with
  | [] => acc
  | d :: ds' => digits_value ds' (10 * acc + d)
  end.

Definition is_digit (c : N) : bool := (48 <=? c) && (c <=? 57).

(** An array index: a canonical numeric string below [2^32 - 1]. *)
Definition array_index (k : jsstring) : option N :=
  match k with
  | [] => None
  | c :: rest =>
      if forallb is_digit k && (negb (c =? 48) || match rest with [] => true | _ => false end)
         && (length k <=? 10)%nat
      then let n := digits_value (List.map (fun c => c - 48) k) 0 in
           if n <? 4294967295 then Some n else None
      else None
  end.

Definition precedes (k k' : jsstring) : bool :=
  match array_index k, array_index k' with
  | Some a, Some b => a <? b
  | Some _, None => true
  | None, _ => false
  end.

Fixpoint insert_prop (k : jsstring) (v : value) (l : list (jsstring * value))
  : list (jsstring * value) :=
  match l with
  | [] => [(k, v)]
  | (k', v') :: t =>
      if precedes k k' then (k, v) :: l else (k', v') :: insert_prop k v t
  end.

Fixpoint has_prop (k : jsstring) (l : list (jsstring * value)) : bool :=
  match l with
  | [] => false
  | (k', _) :: t => JS.eqb k k' || has_prop k t
  end.

Fixpoint replace_prop (k : jsstring) (v : value) (l : list (jsstring * value))
  : list (jsstring * value) :=
  match l with
  | [] => []
  | (k', v') :: t =>
      if JS.eqb k k' then (k', v) :: t else (k', v') :: replace_prop k v t
  end.

(** CreateDataProperty: a key already there keeps its place and takes the new
    value; a new key goes after the keys of its kind (array indices first, in
    ascending order, then the other keys in order of creation). *)
Definition obj_set (l : list (jsstring * value)) (k : jsstring) (v : value) :=
  if has_prop k l then replace_prop k v l else insert_prop k v l.

(** [o[k]] on an object's property list; [None] is [undefined]. *)
Fixpoint lookup (k : jsstring) (l : list (jsstring * value)) : option value :=
  match l with
  | [] => None
  | (k', v) :: t => if JS.eqb k k' then Some v else lookup k t
  end.

(** [v.k] for the keys this program reads ([tool_call], [name], [arguments],
    [choices], [delta], [content], [finish_reason], [llmContent]), none of
    which is a property of a primitive wrapper or of [Array.prototype].
    The receiver is not [null] or [undefined]. *)
Definition get (v : value) (k : jsstring) : option value :=
  match v with
  | VObj l => lookup k l
  | _ => None
  end.

(** [v[0]] *)
Definition get0 (v : value) : option value :=
  match v with
  | VObj l => lookup (str "0") l
  | VArr l => match l with x :: _ => Some x | [] => None end
  | VStr s => match s with c :: _ => Some (VStr [c]) | [] => None end
  | _ => None
  end.

(** *** Number::toString *)

Fixpoint N_digits_fuel (fuel : nat) (n : N) (acc : list N) : list N :=
  match fuel with
  | O => acc
  | S f =>
      let acc' := (n mod 10) :: acc in
      if n / 10 =? 0 then acc' else N_digits_fuel f (n / 10) acc'
  end.

(** Decimal digits of [n], most significant first. *)
Definition N_digits (n : N) : list N :=
  N_digits_fuel (S (N.to_nat (N.log2 n))) n [].

Definition digit_chars (ds : list N) : jsstring := List.map (fun d => 48 + d) ds.

Definition zeros (n : nat) : jsstring := repeat 48 n.

(** The digits [d :: rest] with the decimal point at [n], in the notation
    Number::toString chooses. *)
Definition decimal_text (d : N) (rest : list N) (n : Z) : jsstring :=
  let ds := d :: rest in
  let k := Z.of_nat (List.length ds) in
  if (k <=? n)%Z && (n <=? 21)%Z then
    digit_chars ds ++ zeros (Z.to_nat (n - k))
  else if (0 <? n)%Z && (n <=? 21)%Z then
    digit_chars (firstn (Z.to_nat n) ds) ++ str "." ++
    digit_chars (skipn (Z.to_nat n) ds)
  else if (-6 <? n)%Z && (n <=? 0)%Z then
    str "0." ++ zeros (Z.to_nat (- n)) ++ digit_chars ds
  else
    let e := (n - 1)%Z in
    let es := (if (e <? 0)%Z then str "-" else str "+") ++
              digit_chars (N_digits (Z.abs_N e)) in
    match rest with
    | [] => digit_chars [d] ++ str "e" ++ es
    | _ => digit_chars [d] ++ str "." ++ digit_chars rest ++ str "e" ++ es
    end.

Definition Number_toString (x : number) : jsstring :=
  match ndigits x with
  | [] => str "0"
  | d :: rest =>
      (if nneg x then str "-" else []) ++ decimal_text d rest (npoint x)
  end.

(** *** QuoteJSONString *)

Definition hex_char (d : N) : N := if d <? 10 then 48 + d else 87 + d.

Definition hex4 (c : N) : jsstring :=
  [hex_char ((c / 4096) mod 16); hex_char ((c / 256) mod 16);
   hex_char ((c / 16) mod 16); hex_char (c mod 16)].

Definition unicode_escape (c : N) : jsstring := BACKSLASH :: 117 :: hex4 c.

Definition is_high_surrogate (c : N) : bool := (55296 <=? c) && (c <=? 56319).
Definition is_low_surrogate (c : N) : bool := (56320 <=? c) && (c <=? 57343).

(** One code unit that is not half of a surrogate pair. *)
Definition quote_unit (c : N) : jsstring :=
  if c =? 8 then [BACKSLASH; 98]
  else if c =? 9 then [BACKSLASH; 116]
  else if c =? 10 then [BACKSLASH; 110]
  else if c =? 12 then [BACKSLASH; 102]
  else if c =? 13 then [BACKSLASH; 114]
  else if c =? DQUOTE then [BACKSLASH; DQUOTE]
  else if c =? BACKSLASH then [BACKSLASH; BACKSLASH]
  else if (c <? 32) || is_high_surrogate c || is_low_surrogate c
       then unicode_escape c
  else [c].

Fixpoint quote_units (s : jsstring) : jsstring :=
  match s with
  | [] => []
  | c :: t =>
      if is_high_surrogate c then
        match t with
        | d :: t' =>
            if is_low_surrogate d then c :: d :: quote_units t'
            else quote_unit c ++ quote_units t
        | [] => quote_unit c
        end
      else quote_unit c ++ quote_units t
  end.

Definition QuoteJSONString (s : jsstring) : jsstring :=
  DQUOTE :: quote_units s ++ [DQUOTE].

(** *** SerializeJSONProperty, for a [gap] of spaces *)

Definition wrap (open close : N) (gap stepback indent : jsstring)
    (partial : list jsstring) : jsstring :=
  match partial with
  | [] => [open; close]
  | _ =>
      match gap with
      | [] => open :: join (str ",") partial ++ [close]
      | _ => open :: NEWLINE :: indent ++
             join (str "," ++ NEWLINE :: indent) partial ++
             NEWLINE :: stepback ++ [close]
      end
  end.

Definition colon (gap : jsstring) : jsstring :=
  match gap with [] => str ":" | _ => str ": " end.

Fixpoint SerializeJSONProperty (gap indent : jsstring) (v : value) : jsstring :=
  match v with
  | VNull => str "null"
  | VBool true => str "true"
  | VBool false => str "false"
  | VNum n => Number_toString n
  | VStr s => QuoteJSONString s
  | VArr l =>
      wrap 91 93 gap indent (indent ++ gap)
        (List.map (SerializeJSONProperty gap (indent ++ gap)) l)
  | VObj l =>
      wrap LBRACE RBRACE gap indent (indent ++ gap)
        (List.map (fun kv => QuoteJSONString (fst kv) ++ colon gap ++
                             SerializeJSONProperty gap (indent ++ gap) (snd kv)) l)
  end.

(** [JSON.stringify(v)] *)
Definition stringify (v : value) : jsstring := SerializeJSONProperty [] [] v.

(** [JSON.stringify(v, null, 2)] *)
Definition stringify2 (v : value) : jsstring :=
  SerializeJSONProperty (str "  ") [] v.

(** [String(v)], also the coercion applied by [+=] and by template literals. *)
Definition element_string (toString : value -> jsstring) (v : value) : jsstring :=
  match v with VNull => [] | _ => toString v end.

Fixpoint ToString (v : value) : jsstring :=
  match v with
  | VNull => str "null"
  | VBool true => str "true"
  | VBool false => str "false"
  | VNum n => Number_toString n
  | VStr s => s
  | VArr l => join (str ",") (List.map (element_string ToString) l)
  | VObj _ => str "[object Object]"
  end.

(** *** JSON.parse *)

Definition is_json_space (c : N) : bool :=
  (c =? 32) || (c =? 9) || (c =? 10) || (c =? 13).

Fixpoint skip_ws (s : jsstring) : jsstring :=
  match s with
  | c :: s' => if is_json_space c then skip_ws s' else s
  | [] => []
  end.

Definition hex_value (c : N) : option N :=
  if (48 <=? c) && (c <=? 57) then Some (c - 48)
  else if (97 <=? c) && (c <=? 102) then Some (c - 87)
  else if (65 <=? c) && (c <=? 70) then Some (c - 55)
  else None.

Definition hex4_value (a b c d : N) : option N :=
  match hex_value a, hex_value b, hex_value c, hex_value d with
  | Some x, Some y, Some z, Some w => Some (4096 * x + 256 * y + 16 * z + w)
  | _, _, _, _ => None
  end.

(** The units of a string literal after its opening quote, up to and
    including the closing quote. *)
Fixpoint parse_string_body (s : jsstring) : option (jsstring * jsstring) :=
  match s with
  | [] => None
  | c :: r =>
      if c =? DQUOTE then Some ([], r)
      else if c =? BACKSLASH then
        match r with
        | [] => None
        | e :: r1 =>
            let simple (u : N) :=
              match parse_string_body r1 with
              | Some (t, rest) => Some (u :: t, rest)
              | None => None
              end in
            if e =? DQUOTE then simple DQUOTE
            else if e =? BACKSLASH then simple BACKSLASH
            else if e =? 47 then simple 47
            else if e =? 98 then simple 8
            else if e =? 102 then simple 12
            else if e =? 110 then simple 10
            else if e =? 114 then simple 13
            else if e =? 116 then simple 9
            else if e =? 117 then
              match r1 with
              | h1 :: h2 :: h3 :: h4 :: r2 =>
                  match hex4_value h1 h2 h3 h4 with
                  | Some u =>
                      match parse_string_body r2 with
                      | Some (t, rest) => Some (u :: t, rest)
                      | None => None
                      end
                  | None => None
                  end
              | _ => None
              end
            else None
        end
      else if c <? 32 then None
      else
        match parse_string_body r with
        | Some (t, rest) => Some (c :: t, rest)
        | None => None
        end
  end.

Fixpoint take_digits (s : jsstring) : list N * jsstring :=
  match s with
  | c :: r =>
      if is_digit c then let (ds, rest) := take_digits r in ((c - 48) :: ds, rest)
      else ([], s)
  | [] => ([], [])
  end.

Fixpoint strip_leading_zeros (ds : list N) : list N :=
  match ds with
  | d :: r => if d =? 0 then strip_leading_zeros r else ds
  | [] => []
  end.

Definition strip_trailing_zeros (ds : list N) : list N :=
  rev (strip_leading_zeros (rev ds)).

(** The magnitude [0.d1..dk * 10^n] is at most half the least positive
    binary64 value, [2^-1075]: the literal reads as zero. *)
Definition underflows (ds : list N) (n : Z) : bool :=
  let ex := (n - Z.of_nat (List.length ds))%Z in
  (ex <? 0)%Z &&
  (digits_value ds 0 * 2 ^ 1075 <=? 10 ^ (Z.to_N (- ex))).

(** The number denoted by integer digits [i], fraction digits [f] and
    exponent [x]. *)
Definition make_number (neg : bool) (i f : list N) (x : Z) : number :=
  let all := i ++ f in
  let sig := strip_leading_zeros all in
  let lead := (List.length all - List.length sig)%nat in
  let ds := strip_trailing_zeros sig in
  let n := (Z.of_nat (List.length i) + x - Z.of_nat lead)%Z in
  match ds with
  | [] => number_zero
  | _ => if underflows ds n then number_zero else mkNumber neg ds n
  end.

Definition parse_exponent (s : jsstring) : option (Z * jsstring) :=
  match s with
  | c :: r =>
      if (c =? 101) || (c =? 69) then
        let (sign, r1) :=
          match r with
          | p :: r' => if p =? 43 then (false, r')
                       else if p =? 45 then (true, r') else (false, r)
          | [] => (false, r)
          end in
        match take_digits r1 with
        | ([], _) => None
        | (ds, rest) =>
            let x := Z.of_N (digits_value ds 0) in
            Some (if sign then (- x)%Z else x, rest)
        end
      else Some (0%Z, s)
  | [] => Some (0%Z, s)
  end.

Definition parse_fraction (s : jsstring) : option (list N * jsstring) :=
  match s with
  | c :: r =>
      if c =? 46 then
        match take_digits r with
        | ([], _) => None
        | (ds, rest) => Some (ds, rest)
        end
      else Some ([], s)
  | [] => Some ([], s)
  end.

(** A number literal without its sign at the head of [s1]. *)
Definition parse_number_from (neg : bool) (s1 : jsstring)
  : option (number * jsstring) :=
  let int_part :=
    match s1 with
    | c :: r =>
        if c =? 48 then Some ([0], r)
        else if is_digit c then Some (take_digits s1)
        else None
    | [] => None
    end in
  match int_part with
  | None => None
  | Some (i, s2) =>
      match parse_fraction s2 with
      | None => None
      | Some (f, s3) =>
          match parse_exponent s3 with
          | None => None
          | Some (x, s4) => Some (make_number neg i f x, s4)
          end
      end
  end.

(** A number literal at the head of [s]. *)
Definition parse_number (s : jsstring) : option (number * jsstring) :=
  match s with
  | c :: r => if c =? 45 then parse_number_from true r else parse_number_from false s
  | [] => None
  end.

Definition parse_literal (word : jsstring) (v : value) (s : jsstring)
  : option (value * jsstring) :=
  if startsWith word s then Some (v, skipn (List.length word) s) else None.

(** Recursive descent, every call spending one unit of [fuel]. *)
Fixpoint parse_value (fuel : nat) (s : jsstring) : option (value * jsstring) :=
  match fuel with
  | O => None
  | S f =>
      match skip_ws s with
      | [] => None
      | c :: r =>
          if c =? LBRACE then
            match skip_ws r with
            | c' :: r' =>
                if c' =? RBRACE then Some (VObj [], r') else parse_members f r []
            | [] => None
            end
          else if c =? 91 then
            match skip_ws r with
            | c' :: r' =>
                if c' =? 93 then Some (VArr [], r') else parse_elements f r []
            | [] => None
            end
          else if c =? DQUOTE then
            match parse_string_body r with
            | Some (t, rest) => Some (VStr t, rest)
            | None => None
            end
          else if c =? 116 then parse_literal (str "true") (VBool true) (c :: r)
          else if c =? 102 then parse_literal (str "false") (VBool false) (c :: r)
          else if c =? 110 then parse_literal (str "null") VNull (c :: r)
          else
            match parse_number (c :: r) with
            | Some (n, rest) => Some (VNum n, rest)
            | None => None
            end
      end
  end
with parse_elements (fuel : nat) (s : jsstring) (acc : list value)
  : option (value * jsstring) :=
  match fuel with
  | O => None
  | S f =>
      match parse_value f s with
      | None => None
      | Some (v, r) =>
          match skip_ws r with
          | c :: r' =>
              if c =? 44 then parse_elements f r' (acc ++ [v])
              else if c =? 93 then Some (VArr (acc ++ [v]), r')
              else None
          | [] => None
          end
      end
  end
with parse_members (fuel : nat) (s : jsstring) (acc : list (jsstring * value))
  : option (value * jsstring) :=
  match fuel with
  | O => None
  | S f =>
      match skip_ws s with
      | c :: r =>
          if c =? DQUOTE then
            match parse_string_body r with
            | Some (k, r1) =>
                match skip_ws r1 with
                | c1 :: r2 =>
                    if c1 =? 58 then
                      match parse_value f r2 with
                      | Some (v, r3) =>
                          match skip_ws r3 with
                          | c3 :: r4 =>
                              if c3 =? 44 then parse_members f r4 (obj_set acc k v)
                              else if c3 =? RBRACE
                                   then Some (VObj (obj_set acc k v), r4)
                              else None
                          | [] => None
                          end
                      | None => None
                      end
                    else None
                | [] => None
                end
            | None => None
            end
          else None
      | [] => None
      end
  end.

(** [JSON.parse(s)]; [None] is the SyntaxError it throws.  The fuel is
    enough for every text ([parse_fuel_adequate] below). *)
Definition parse (s : jsstring) : option value :=
  match parse_value (S (List.length s)) s with
  | Some (v, rest) => match skip_ws rest with [] => Some v | _ => None end
  | None => None
  end.

End JSON.
Export JSON.

(** ** The generic content model ([@google/genai]) *)

(** Optional fields are [option]s: [None] is a key that is absent or
    [undefined]. *)
Record FunctionCall := mkFunctionCall {
  fc_name : option value;
  fc_args : option value
}.

Record FunctionResponse := mkFunctionResponse {
  fr_name : option jsstring;
  fr_response : option value
}.

Record InlineData := mkInlineData { mimeType : option jsstring }.
Record FileData := mkFileData { fileUri : option jsstring }.

Record Part := mkPart {
  text : option jsstring;
  functionCall : option FunctionCall;
  functionResponse : option FunctionResponse;
  inlineData : option InlineData;
  fileData : option FileData
}.

Definition textPart (s : jsstring) : Part := mkPart (Some s) None None None None.
Definition functionCallPart (fc : FunctionCall) : Part :=
  mkPart None (Some fc) None None None.

Record Content := mkContent {
  role : option jsstring;
  parts : option (list Part)
}.

(** What [normalizeParts] may be given. *)
Inductive PartListUnion :=
| PLUndefined
| PLString (s : jsstring)
| PLArray (items : list (jsstring + Part))
| PLPart (p : Part).

(** What [normalizeContents] may be given. *)
Inductive ContentListUnion :=
| CLString (s : jsstring)
| CLArray (items : list (jsstring + Content))
| CLContent (c : Content).

(** [config.systemInstruction] of a request: a string, an object with a
    [parts] key, an array, or another object (a part). *)
Inductive ContentUnion :=
| CUString (s : jsstring)
| CUContent (p : PartListUnion)
| CUArray (items : list (jsstring + Part))
| CUPart (p : Part).

(** The second parameter of [convertToOllamaMessages],
    [string | Part | Part[] | Content]. *)
Inductive SystemInstruction :=
| SIString (s : jsstring)
| SIContent (p : option (list Part))
| SIArray (items : list Part)
| SIPart (p : Part).

Record PropertySchema := mkPropertySchema {
  ps_type : option jsstring;
  ps_description : option jsstring
}.

Record Schema := mkSchema {
  properties : option (list (jsstring * PropertySchema));
  required : option (list jsstring)
}.

Record FunctionDeclaration := mkFunctionDeclaration {
  fd_name : option jsstring;
  fd_description : option jsstring;
  fd_parameters : option Schema
}.

(** A [Tool]: the [functionDeclarations] key may be absent ([None]), present
    without a value ([Some None]) or hold an array. *)
Record Tool := mkTool {
  functionDeclarations : option (option (list FunctionDeclaration))
}.

Record GenerateContentConfig := mkConfig {
  systemInstruction : option ContentUnion;
  tools : option (list Tool);
  temperature : option number;
  maxOutputTokens : option number
}.

Record GenerateContentParameters := mkRequest {
  contents : ContentListUnion;
  config : option GenerateContentConfig
}.

Inductive FinishReason := STOP | MAX_TOKENS.

Record Candidate := mkCandidate {
  cand_content : Content;
  finishReason : option FinishReason;
  index : N
}.

Record UsageMetadata := mkUsage {
  promptTokenCount : N;
  candidatesTokenCount : N;
  totalTokenCount : N
}.

Record GenerateContentResponse := mkResponse {
  candidates : list Candidate;
  usageMetadata : option UsageMetadata
}.

(** ** The backend wire format *)

Record OllamaMessage := mkMessage {
  om_role : option jsstring;
  om_content : jsstring
}.

Record OllamaChoice := mkChoice {
  message_content : jsstring;
  finish_reason : jsstring
}.

Record OllamaUsage := mkOllamaUsage {
  prompt_tokens : N;
  completion_tokens : N;
  total_tokens : N
}.

Record OllamaCompletionResponse := mkCompletion {
  choices : list OllamaChoice;
  usage : OllamaUsage
}.

Record OllamaRequest := mkOllamaRequest {
  rq_model : jsstring;
  rq_messages : list OllamaMessage;
  rq_stream : bool;
  rq_temperature : option number;
  rq_max_tokens : option number
}.

(** What [fetch] resolves to: the status, the body as text, the body as a
    completion when it is one, and the body as the texts its reader yields. *)
Record HttpResponse := mkHttp {
  ok : bool;
  status : N;
  body_text : jsstring;
  body_json : option OllamaCompletionResponse;
  body : option (list jsstring)
}.

(** A promise settles with a value or rejects with an error message. *)
Inductive Result (A : Type) :=
| Ok (a : A)
| Err (message : jsstring).
Arguments Ok {A} a.
Arguments Err {A} message.

(** ** normalizeContents, normalizeParts *)

Definition userContent (s : jsstring) : Content :=
  mkContent (Some (str "user")) (Some [textPart s]).

Definition normalizeContents (contents : ContentListUnion) : list Content :=
  match contents with
  | CLString s => [userContent s]
  | CLArray items =>
      List.map (fun c => match c with inl s => userContent s | inr c' => c' end) items
  | CLContent c => [c]
  end.

Definition normalizeParts (parts : PartListUnion) : list Part :=
  match parts with
  | PLUndefined => []
  | PLString s => match s with [] => [] | _ => [textPart s] end
  | PLArray items =>
      List.map (fun p => match p with inl s => textPart s | inr p' => p' end) items
  | PLPart p => [p]
  end.

(** ** OllamaContentGenerator *)

Definition Q : jsstring := [DQUOTE].
Definition NL : jsstring := [NEWLINE].
Definition FENCE : jsstring := [BACKTICK; BACKTICK; BACKTICK].

(** [`${x}`] for a string that may be [undefined]. *)
Definition template (x : option jsstring) : jsstring :=
  match x with Some s => s | None => str "undefined" end.

(** [x || ''] *)
Definition or_empty (x : option jsstring) : jsstring :=
  match x with Some s => s | None => [] end.

Definition truthy_string (x : option jsstring) : bool :=
  match x with Some (_ :: _) => true | _ => false end.

(** The object [{ tool_call: { name, arguments } }] as [JSON.stringify] sees
    it: a property whose value is [undefined] is left out. *)
Definition toolCallBody (fc : FunctionCall) : value :=
  let opt (k : jsstring) (v : option value) :=
    match v with Some x => [(k, x)] | None => [] end in
  VObj (opt (str "name") (fc_name fc) ++ opt (str "arguments") (fc_args fc)).

Definition toolCallObject (fc : FunctionCall) : value :=
  VObj [(str "tool_call", toolCallBody fc)].

Definition responseText (response : option value) : jsstring :=
  match response with
  | Some (VObj l) =>
      match lookup (str "llmContent") l with
      | Some v => ToString v
      | None => stringify (VObj l)
      end
  | Some (VArr l) => stringify (VArr l)
  | Some v => if truthy v then ToString v else []
  | None => []
  end.

(** What one iteration of the loop of [partsToText] pushes. *)
Definition pushed (part : Part) : list jsstring :=
  if truthy_string (text part) then [or_empty (text part)]
  else match functionCall part with
  | Some fc => [NL ++ stringify2 (toolCallObject fc) ++ NL]
  | None =>
  match functionResponse part with
  | Some fr =>
      [NL ++ str "Tool " ++ Q ++ template (fr_name fr) ++ Q ++ str " returned:" ++
       NL ++ responseText (fr_response fr) ++ NL]
  | None =>
  match inlineData part with
  | Some d => [str "[Inline data: " ++ template (mimeType d) ++ str "]"]
  | None =>
  match fileData part with
  | Some d => [str "[File: " ++ template (fileUri d) ++ str "]"]
  | None => []
  end end end end.

Definition partsToText (parts : list Part) : jsstring :=
  join [] (flat_map pushed parts).

Definition convertRole (r : option jsstring) : option jsstring :=
  match r with
  | Some s => if JS.eqb s (str "model") then Some (str "assistant") else r
  | None => None
  end.

Definition convertToOllamaMessages (contents : list Content)
    (systemInstruction : option SystemInstruction) : list OllamaMessage :=
  let system :=
    match systemInstruction with
    | None | Some (SIString []) => []
    | Some si =>
        let systemText :=
          match si with
          | SIString s => s
          | SIContent p => partsToText (match p with Some l => l | None => [] end)
          | SIArray l => partsToText l
          | SIPart p => or_empty (text p)
          end in
        match systemText with
        | [] => []
        | _ => [mkMessage (Some (str "system")) systemText]
        end
    end in
  system ++
  flat_map (fun content =>
    let role := convertRole (role content) in
    let text := partsToText (match parts content with Some l => l | None => [] end) in
    match text with
    | [] => []
    | _ => [mkMessage role text]
    end) contents.

(** *** addToolInstructions *)

Definition paramLine (required : list jsstring) (kv : jsstring * PropertySchema)
  : jsstring :=
  let (key, value) := kv in
  let isRequired := existsb (JS.eqb key) required in
  let desc := or_empty (ps_description value) in
  str "    " ++ key ++
  (if isRequired then str " (required)" else str " (optional)") ++
  str ": " ++ template (ps_type value) ++ str " - " ++ desc.

Definition or_unknown (x : option jsstring) : jsstring :=
  match x with Some (c :: s) => c :: s | _ => str "unknown" end.

Definition toolDescription (fn : FunctionDeclaration) : jsstring :=
  let name := or_unknown (fd_name fn) in
  let description := or_empty (fd_description fn) in
  let props :=
    match fd_parameters fn with
    | Some p => match properties p with Some l => l | None => [] end
    | None => []
    end in
  let required :=
    match fd_parameters fn with
    | Some p => match required p with Some l => l | None => [] end
    | None => []
    end in
  let paramsList := join NL (List.map (paramLine required) props) in
  name ++ str ": " ++ description ++ NL ++ str "  Parameters:" ++ NL ++
  match paramsList with [] => str "    (none)" | _ => paramsList end.

Definition toolPrompt (functionDeclarations : list FunctionDeclaration) : jsstring :=
  let toolDescriptions := join (NL ++ NL) (List.map toolDescription functionDeclarations) in
  NL ++ NL ++
  str "You have access to these tools. Only use them when the user explicitly requests an action:" ++
  NL ++ NL ++ toolDescriptions ++ NL ++ NL ++
  str "To call a tool, respond with JSON using the EXACT parameter names shown above:" ++ NL ++
  FENCE ++ str "json" ++ NL ++
  str "{" ++ Q ++ str "tool_call" ++ Q ++ str ": {" ++ Q ++ str "name" ++ Q ++ str ": " ++
  Q ++ str "tool_name" ++ Q ++ str ", " ++ Q ++ str "arguments" ++ Q ++ str ": {" ++
  Q ++ str "param_name" ++ Q ++ str ": " ++ Q ++ str "value" ++ Q ++ str "}}}" ++ NL ++
  FENCE ++ NL ++ NL ++
  str "IMPORTANT:" ++ NL ++
  str "- Use the exact parameter names from the tool definition (e.g., " ++
  Q ++ str "dir_path" ++ Q ++ str " not " ++ Q ++ str "directory_path" ++ Q ++ str ")" ++ NL ++
  str "- Include all required parameters" ++ NL ++
  str "- For questions or conversation, respond with normal text (no JSON)" ++ NL ++ NL.

Definition addToolInstructions (systemInstruction : jsstring)
    (tools : option (list Tool)) : jsstring :=
  match tools with
  | None | Some [] => systemInstruction
  | Some (firstTool :: _) =>
      match functionDeclarations firstTool with
      | None | Some None => systemInstruction
      | Some (Some []) => systemInstruction
      | Some (Some fns) => systemInstruction ++ toolPrompt fns
      end
  end.

(** *** parseToolCall *)

(** [\s*```] at the head of [s]. *)
Definition closes_block (s : jsstring) : bool :=
  startsWith FENCE (skip_regex_space s).

(** [[\s\S]*?\}] followed by [\s*```]: the shortest run that ends in a
    closing brace after which the fence closes. *)
Fixpoint lazy_body (s : jsstring) : option jsstring :=
  match s with
  | [] => None
  | c :: r =>
      if (c =? RBRACE) && closes_block r then Some [c]
      else option_map (cons c) (lazy_body r)
  end.

(** The expression [/```(?:json)?\s*(\{[\s\S]*?\})\s*```/] matched at the
    head of [s]; the result is group 1.  When the text after the fence starts
    with [json] and the rest fails, retrying without the optional group fails
    as well, since [j] is neither white space nor a brace. *)
Definition match_here (s : jsstring) : option jsstring :=
  if startsWith FENCE s then
    let s1 := skipn 3 s in
    let s2 := if startsWith (str "json") s1 then skipn 4 s1 else s1 in
    match skip_regex_space s2 with
    | c :: r => if c =? LBRACE then option_map (cons c) (lazy_body r) else None
    | [] => None
    end
  else None.

(** [text.match(...)]: the leftmost match. *)
Fixpoint codeBlockMatch (text : jsstring) : option jsstring :=
  match match_here text with
  | Some g => Some g
  | None => match text with
            | [] => None
            | _ :: t => codeBlockMatch t
            end
  end.

(** The loop that counts braces from [openBraceIndex]; returns [braceCount]
    and [endIndex] as they stand when it ends or breaks. *)
Fixpoint brace_loop (s : jsstring) (i : nat) (braceCount : Z) (endIndex : nat)
  : Z * nat :=
  match s with
  | [] => (braceCount, endIndex)
  | c :: r =>
      if c =? LBRACE then brace_loop r (S i) (braceCount + 1)%Z endIndex
      else if c =? RBRACE then
        let braceCount' := (braceCount - 1)%Z in
        if (braceCount' =? 0)%Z then (braceCount', S i)
        else brace_loop r (S i) braceCount' endIndex
      else brace_loop r (S i) braceCount endIndex
  end.

Definition TOOL_CALL_KEY : jsstring := Q ++ str "tool_call" ++ Q.

(** The value of [jsonText] when [JSON.parse] is reached; [None] where the
    function has returned [null] before. *)
Definition extractJsonText (text : jsstring) : option jsstring :=
  let jsonText :=
    match codeBlockMatch text with
    | Some g => Some g
    | None =>
        match indexOf TOOL_CALL_KEY text with
        | None => None
        | Some toolCallIndex =>
            match lastIndexOf_from LBRACE text toolCallIndex with
            | None => None
            | Some openBraceIndex =>
                let (braceCount, endIndex) :=
                  brace_loop (skipn openBraceIndex text) openBraceIndex 0%Z
                             openBraceIndex in
                if (braceCount =? 0)%Z
                then Some (substring openBraceIndex endIndex text)
                else None
            end
        end
    end in
  match jsonText with
  | Some (c :: j) => Some (c :: j)
  | _ => None
  end.

(** [validToolNames.includes(toolName)] *)
Definition includesName (validToolNames : list (option jsstring)) (toolName : value)
  : bool :=
  match toolName with
  | VStr s => existsb (fun n => match n with Some t => JS.eqb t s | None => false end)
                      validToolNames
  | _ => false
  end.

Definition parseToolCall (text : jsstring) (availableTools : option (list Tool))
  : option FunctionCall :=
  match extractJsonText text with
  | None => None
  | Some jsonText =>
      match JSON.parse jsonText with
      | None => None
      | Some parsed =>
          match get parsed (str "tool_call") with
          | None => None
          | Some tool_call =>
              if truthy tool_call && truthy_opt (get tool_call (str "name")) then
                match get tool_call (str "name") with
                | None => None
                | Some toolName =>
                    let rejected :=
                      match availableTools with
                      | Some (firstTool :: _) =>
                          match functionDeclarations firstTool with
                          | Some (Some fns) =>
                              negb (includesName (List.map fd_name fns) toolName)
                          | _ => false
                          end
                      | _ => false
                      end in
                    if rejected then None
                    else
                      let arguments :=
                        match get tool_call (str "arguments") with
                        | Some a => if truthy a then a else VObj []
                        | None => VObj []
                        end in
                      Some (mkFunctionCall (Some toolName) (Some arguments))
                end
              else None
          end
      end
  end.

(** [tools && tools.length > 0 && 'functionDeclarations' in tools[0]] *)
Definition hasTools (tools : option (list Tool)) : bool :=
  match tools with
  | Some (t :: _) => match functionDeclarations t with Some _ => true | None => false end
  | _ => false
  end.

(** *** convertToGeminiResponse *)

Definition modelContent (p : Part) : Content :=
  mkContent (Some (str "model")) (Some [p]).

(** The body of [convertToGeminiResponse], with the extractor it calls as
    [this.parseToolCall] taken as [extract].  [Err] is the TypeError raised
    when [choices] is empty. *)
Definition convertToGeminiResponseWith
    (extract : jsstring -> option (list Tool) -> option FunctionCall)
    (ollamaResponse : OllamaCompletionResponse) (tools : option (list Tool))
  : Result GenerateContentResponse :=
  match choices ollamaResponse with
  | [] => Err (str "TypeError: Cannot read properties of undefined (reading 'message')")
  | choice :: _ =>
      let content := message_content choice in
      let toolCall := if hasTools tools then extract content tools else None in
      let parts :=
        match toolCall with
        | Some tc => [functionCallPart tc]
        | None => [textPart content]
        end in
      let finishReason :=
        if JS.eqb (finish_reason choice) (str "length") then MAX_TOKENS else STOP in
      Ok (mkResponse
            [mkCandidate (mkContent (Some (str "model")) (Some parts))
                         (Some finishReason) 0]
            (Some (mkUsage (prompt_tokens (usage ollamaResponse))
                           (completion_tokens (usage ollamaResponse))
                           (total_tokens (usage ollamaResponse)))))
  end.

Definition convertToGeminiResponse := convertToGeminiResponseWith parseToolCall.

(** *** generateContent *)

Record OllamaContentGenerator := mkGenerator {
  baseUrl : jsstring;
  model : jsstring
}.

(** [s.replace(/\/$/, '')] *)
Definition stripTrailingSlash (s : jsstring) : jsstring :=
  match rev s with
  | c :: r => if c =? 47 then rev r else s
  | [] => s
  end.

Definition newOllamaContentGenerator (baseUrl model : option jsstring)
  : OllamaContentGenerator :=
  mkGenerator
    (stripTrailingSlash
       (match baseUrl with Some u => u | None => str "http://localhost:11434" end))
    (match model with Some m => m | None => str "qwen2.5:14b" end).

Definition requestTools (request : GenerateContentParameters) : option (list Tool) :=
  match config request with Some c => tools c | None => None end.

(** [systemText] as it stands before the tool instructions are added. *)
Definition requestSystemText (request : GenerateContentParameters) : jsstring :=
  match config request with
  | None => []
  | Some c =>
      match systemInstruction c with
      | None => []
      | Some (CUString s) => s
      | Some (CUContent p) => partsToText (normalizeParts p)
      | Some (CUArray items) => partsToText (normalizeParts (PLArray items))
      | Some (CUPart p) => or_empty (text p)
      end
  end.

(** [systemText] after [if (systemText) systemText = addToolInstructions(..)]. *)
Definition injectedSystemText (request : GenerateContentParameters) : jsstring :=
  match requestSystemText request with
  | [] => []
  | systemText => addToolInstructions systemText (requestTools request)
  end.

(** [ollamaRequest], built alike by [generateContent] ([stream] false) and by
    [generateContentStreamInternal] ([stream] true). *)
Definition ollamaRequest (this : OllamaContentGenerator)
    (request : GenerateContentParameters) (stream : bool) : OllamaRequest :=
  let contents := normalizeContents (contents request) in
  let messages :=
    convertToOllamaMessages contents (Some (SIString (injectedSystemText request))) in
  mkOllamaRequest (model this) messages stream
    (match config request with Some c => temperature c | None => None end)
    (match config request with Some c => maxOutputTokens c | None => None end).

Definition apiError (response : HttpResponse) : jsstring :=
  str "Ollama API error: " ++ digit_chars (N_digits (status response)) ++ str " " ++
  body_text response.

Definition endpoint (this : OllamaContentGenerator) : jsstring :=
  baseUrl this ++ str "/v1/chat/completions".

Definition generateContentWith
    (extract : jsstring -> option (list Tool) -> option FunctionCall)
    (this : OllamaContentGenerator)
    (fetch : jsstring -> OllamaRequest -> HttpResponse)
    (request : GenerateContentParameters) : Result GenerateContentResponse :=
  let response := fetch (endpoint this) (ollamaRequest this request false) in
  if negb (ok response) then Err (apiError response)
  else match body_json response with
       | None => Err (str "SyntaxError")
       | Some ollamaResponse =>
           convertToGeminiResponseWith extract ollamaResponse (requestTools request)
       end.

Definition generateContent := generateContentWith parseToolCall.

(** *** generateContentStreamInternal *)

(** [v?.k] *)
Definition get_opt (v : option value) (k : jsstring) : option value :=
  match v with
  | None | Some VNull => None
  | Some x => get x k
  end.

(** The partial response yielded for one text increment.  The increment is
    shown as the string [+=] appends, which is the increment itself whenever
    the backend sends a string as the chunk type says. *)
Definition textEvent (content : value) (finish : option value)
  : GenerateContentResponse :=
  mkResponse
    [mkCandidate (modelContent (textPart (ToString content)))
       (match finish with
        | Some f =>
            if truthy f then
              Some (match f with
                    | VStr s => if JS.eqb s (str "length") then MAX_TOKENS else STOP
                    | _ => STOP
                    end)
            else None
        | None => None
        end) 0]
    None.

Definition functionCallEvent (toolCall : FunctionCall) : GenerateContentResponse :=
  mkResponse [mkCandidate (modelContent (functionCallPart toolCall)) (Some STOP) 0]
             (Some (mkUsage 0 0 0)).

(** The body of the [try] for one parsed chunk: the new [accumulatedText] and
    the responses yielded, or [None] when reading [chunk.choices[0]] throws. *)
Definition onChunk
    (extract : jsstring -> option (list Tool) -> option FunctionCall)
    (tools : option (list Tool)) (accumulatedText : jsstring) (chunk : value)
  : option (jsstring * list GenerateContentResponse) :=
  match get chunk (str "choices") with
  | None | Some VNull => None
  | Some choices =>
      let first := get0 choices in
      let delta := get_opt first (str "delta") in
      let content := get_opt delta (str "content") in
      let finish := get_opt first (str "finish_reason") in
      let (accumulatedText', yielded) :=
        match content with
        | Some c =>
            if truthy c
            then (accumulatedText ++ ToString c, [textEvent c finish])
            else (accumulatedText, [])
        | None => (accumulatedText, [])
        end in
      let override :=
        if truthy_opt finish then
          match (if hasTools tools then extract accumulatedText' tools else None) with
          | Some toolCall => [functionCallEvent toolCall]
          | None => []
          end
        else [] in
      Some (accumulatedText', yielded ++ override)
  end.

Definition onLine
    (extract : jsstring -> option (list Tool) -> option FunctionCall)
    (tools : option (list Tool)) (accumulatedText : jsstring) (line : jsstring)
  : jsstring * list GenerateContentResponse :=
  if startsWith (str "data: ") line then
    let data := slice 6 line in
    if JS.eqb data (str "[DONE]") then (accumulatedText, [])
    else match JSON.parse data with
         | None => (accumulatedText, [])
         | Some chunk =>
             match onChunk extract tools accumulatedText chunk with
             | Some r => r
             | None => (accumulatedText, [])
             end
         end
  else (accumulatedText, []).

Fixpoint onLines
    (extract : jsstring -> option (list Tool) -> option FunctionCall)
    (tools : option (list Tool)) (accumulatedText : jsstring) (lines : list jsstring)
  : jsstring * list GenerateContentResponse :=
  match lines with
  | [] => (accumulatedText, [])
  | line :: rest =>
      let (acc1, ev1) := onLine extract tools accumulatedText line in
      let (acc2, ev2) := onLines extract tools acc1 rest in
      (acc2, ev1 ++ ev2)
  end.

(** The [while] loop over the texts the reader yields; the state is
    [buffer] and [accumulatedText]. *)
Fixpoint readLoop
    (extract : jsstring -> option (list Tool) -> option FunctionCall)
    (tools : option (list Tool)) (buffer accumulatedText : jsstring)
    (reads : list jsstring) : list GenerateContentResponse :=
  match reads with
  | [] => []
  | value :: rest =>
      let lines := split_nl (buffer ++ value) in
      let buffer' := last lines [] in
      let (acc', yielded) := onLines extract tools accumulatedText (removelast lines) in
      yielded ++ readLoop extract tools buffer' acc' rest
  end.

Definition generateContentStreamInternalWith
    (extract : jsstring -> option (list Tool) -> option FunctionCall)
    (this : OllamaContentGenerator)
    (fetch : jsstring -> OllamaRequest -> HttpResponse)
    (request : GenerateContentParameters) : Result (list GenerateContentResponse) :=
  let response := fetch (endpoint this) (ollamaRequest this request true) in
  if negb (ok response) then Err (apiError response)
  else match body response with
       | None => Err (str "No response body from Ollama")
       | Some reads => Ok (readLoop extract (requestTools request) [] [] reads)
       end.

Definition generateContentStreamInternal :=
  generateContentStreamInternalWith parseToolCall.

Definition generateContentStream := generateContentStreamInternal.

(** *** countTokens and embedContent *)

Definition allParts (request_contents : ContentListUnion) : list Part :=
  flat_map (fun c => match parts c with Some l => l | None => [] end)
           (normalizeContents request_contents).

(** [Math.ceil(text.length / 4)] *)
Definition countTokens (request_contents : ContentListUnion) : N :=
  let text := partsToText (allParts request_contents) in
  (N.of_nat (List.length text) + 3) / 4.

Definition embedContent (request_contents : ContentListUnion)
  : Result (list (list number)) :=
  Err (str "Ollama embedContent not implemented").

(** ** Notions the properties are stated with *)

(** A message of the backend with role [system]. *)
Definition isSystem (m : OllamaMessage) : bool :=
  match om_role m with Some r => JS.eqb r (str "system") | None => false end.

(** Exactly one system message, placed first. *)
Definition exactly_one_system_first (msgs : list OllamaMessage) : Prop :=
  exists m rest, msgs = m :: rest /\ isSystem m = true /\
                 Forall (fun x => isSystem x = false) rest.

(** The flattened content of a turn. *)
Definition flattenTurn (c : Content) : jsstring :=
  partsToText (match parts c with Some l => l | None => [] end).

Definition nonEmpty (s : jsstring) : bool :=
  match s with [] => false | _ => true end.

(** The roles of the generic content model. *)
Definition genericRole (c : Content) : Prop :=
  role c = Some (str "user") \/ role c = Some (str "model").

(** A turn and the backend message it becomes. *)
Definition turnMessage (c : Content) (m : OllamaMessage) : Prop :=
  om_content m = flattenTurn c /\
  (role c = Some (str "model") -> om_role m = Some (str "assistant")) /\
  (role c <> Some (str "model") -> om_role m = role c).

(** A response whose parts are all text parts. *)
Definition textOnlyPart (p : Part) : Prop :=
  functionCall p = None /\ exists s, text p = Some s.

Definition candidateParts (c : Candidate) : list Part :=
  match parts (cand_content c) with Some l => l | None => [] end.

Definition textOnly (r : GenerateContentResponse) : Prop :=
  Forall (fun c => Forall textOnlyPart (candidateParts c)) (candidates r).

(** The text increments a response carries, and the function calls. *)
Definition responseTexts (r : GenerateContentResponse) : list jsstring :=
  flat_map (fun c => flat_map (fun p => match text p with Some s => [s] | None => [] end)
                              (candidateParts c)) (candidates r).

Definition responseCalls (r : GenerateContentResponse) : list FunctionCall :=
  flat_map (fun c => flat_map (fun p => match functionCall p with
                                         | Some fc => [fc] | None => [] end)
                              (candidateParts c)) (candidates r).

(** The names of all functions declared in a tool list. *)
Definition declaredToolNames (tools : option (list Tool)) : list (option jsstring) :=
  match tools with
  | None => []
  | Some l =>
      flat_map (fun t => match functionDeclarations t with
                         | Some (Some fns) => List.map fd_name fns
                         | _ => []
                         end) l
  end.

(** A request for which the adapter does not look for calls: no tool list,
    an empty one, or one whose first entry has no [functionDeclarations]
    key. *)
Definition noTools (tools : option (list Tool)) : Prop :=
  tools = None \/ tools = Some [] \/
  exists t rest, tools = Some (t :: rest) /\ functionDeclarations t = None.

(** A tool list whose first entry holds an empty array of declarations. *)
Definition emptyDeclarations (tools : option (list Tool)) : Prop :=
  exists rest, tools = Some (mkTool (Some (Some [])) :: rest).

(** An extractor that is never consulted may as well be this one. *)
Definition noExtract (_ : jsstring) (_ : option (list Tool)) : option FunctionCall :=
  None.

(** The [tool_call.name] that extraction finds in a text, when it finds
    one: the span taken from the text parses and holds a truthy [tool_call]
    with a truthy [name]. *)
Definition foundToolName (text : jsstring) : option value :=
  match extractJsonText text with
  | None => None
  | Some jsonText =>
      match JSON.parse jsonText with
      | None => None
      | Some parsed =>
          match get parsed (str "tool_call") with
          | Some tool_call =>
              if truthy tool_call then
                match get tool_call (str "name") with
                | Some n => if truthy n then Some n else None
                | None => None
                end
              else None
          | None => None
          end
      end
  end.

(** A name that matches no declared tool is not surfaced. *)
Definition rejects_undeclared (text : jsstring) (tools : option (list Tool)) : Prop :=
  forall name,
    foundToolName text = Some name ->
    includesName (declaredToolNames tools) name = false ->
    parseToolCall text tools = None.

(** *** Streamed backend output *)

(** The fields of an [OllamaStreamChunk] that the adapter reads:
    [choices[0].delta.content] and [choices[0].finish_reason]. *)
Record OllamaStreamChunk := mkChunk {
  delta_content : option jsstring;
  chunk_finish_reason : option jsstring
}.

(** A parsed frame is a chunk with these fields: [choices] is an array whose
    first element is an object with an object [delta], whose [content] is
    the string or absent, and with [finish_reason] the string, or [null] or
    absent. *)
Definition decodes (v : value) (ch : OllamaStreamChunk) : Prop :=
  exists rest fields delta,
    get v (str "choices") = Some (VArr (VObj fields :: rest)) /\
    lookup (str "delta") fields = Some (VObj delta) /\
    lookup (str "content") delta = option_map VStr (delta_content ch) /\
    match chunk_finish_reason ch with
    | Some r => lookup (str "finish_reason") fields = Some (VStr r)
    | None => lookup (str "finish_reason") fields = Some VNull \/
              lookup (str "finish_reason") fields = None
    end.

(** The payload [data] of a frame is a line of JSON text for the chunk. *)
Definition frameOf (data : jsstring) (ch : OllamaStreamChunk) : Prop :=
  ~ In NEWLINE data /\ exists v, JSON.parse data = Some v /\ decodes v ch.

(** The line protocol: each event is [data: <json>] followed by an empty
    line, and [data: [DONE]] ends the stream. *)
Definition sse_frame (data : jsstring) : jsstring :=
  str "data: " ++ data ++ NL ++ NL.

Definition sse_stream (datas : list jsstring) : jsstring :=
  concat (List.map sse_frame datas) ++ str "data: [DONE]" ++ NL ++ NL.

(** The text a chunk adds. *)
Definition chunkText (ch : OllamaStreamChunk) : jsstring :=
  or_empty (delta_content ch).

(** The complete text of a sequence of chunks. *)
Definition chunksText (chunks : list OllamaStreamChunk) : jsstring :=
  concat (List.map chunkText chunks).

(** The concatenation of the text increments of a sequence of responses. *)
Definition streamText (events : list GenerateContentResponse) : jsstring :=
  concat (flat_map responseTexts events).

(** The override yielded when a chunk with finish reason [finish] is
    handled with [accumulatedText] at hand. *)
Definition overrideOf
    (extract : jsstring -> option (list Tool) -> option FunctionCall)
    (tools : option (list Tool)) (accumulatedText : jsstring)
    (finish : option jsstring) : list GenerateContentResponse :=
  match finish with
  | Some (_ :: _) =>
      match (if hasTools tools then extract accumulatedText tools else None) with
      | Some toolCall => [functionCallEvent toolCall]
      | None => []
      end
  | _ => []
  end.

(** The lines of a stream of frames. *)
Definition frameLines (datas : list jsstring) : list jsstring :=
  flat_map (fun d => [str "data: " ++ d; []]) datas.

(** *** Values that print and read back *)

(** Code units are below [2^16]. *)
Definition unit_ok (c : N) : bool := c <? 65536.

(** A number in its digits: zero, or digits below ten that neither start
    nor end with zero, of a magnitude that binary64 does not round to zero. *)
Definition number_ok (x : number) : bool :=
  match ndigits x with
  | [] => negb (nneg x) && (npoint x =? 0)%Z
  | d :: ds =>
      forallb (fun e => e <? 10) (d :: ds) && negb (d =? 0) &&
      negb (last (d :: ds) 0 =? 0) && negb (underflows (d :: ds) (npoint x))
  end.

(** [k] is a new key that goes after the properties [acc]. *)
Definition appendable (acc : list (jsstring * value)) (k : jsstring) : bool :=
  negb (has_prop k acc) && forallb (fun kv => negb (precedes k (fst kv))) acc.

(** The properties [l], after [acc], have distinct keys in property order. *)
Fixpoint ordered_from (acc l : list (jsstring * value)) : bool :=
  match l with
  | [] => true
  | (k, v) :: t => appendable acc k && ordered_from (acc ++ [(k, v)]) t
  end.

(** A value as JavaScript can hold it and [JSON.stringify] prints it in
    full: strings of code units, numbers in their digits, objects with
    distinct keys in property order. *)
Fixpoint well_formed (v : value) : bool :=
  match v with
  | VNull => true
  | VBool _ => true
  | VNum x => number_ok x
  | VStr s => forallb unit_ok s
  | VArr l => forallb well_formed l
  | VObj l =>
      ordered_from [] l &&
      forallb (fun kv => forallb unit_ok (fst kv) && well_formed (snd kv)) l
  end.

(** A code unit that is neither a brace nor a backtick. *)
Definition free_unit (c : N) : bool :=
  negb (c =? LBRACE) && negb (c =? RBRACE) && negb (c =? BACKTICK).

(** No string in the value, key or not, holds a brace or a backtick. *)
Fixpoint brace_free (v : value) : bool :=
  match v with
  | VStr s => forallb free_unit s
  | VArr l => forallb brace_free l
  | VObj l => forallb (fun kv => forallb free_unit (fst kv) && brace_free (snd kv)) l
  | _ => true
  end.

Definition plain (v : value) : bool := well_formed v && brace_free v.

(** Texts without backticks whose braces are nested. *)
Inductive balanced : jsstring -> Prop :=
| balanced_nil : balanced []
| balanced_unit (c : N) (w : jsstring) :
    free_unit c = true -> balanced w -> balanced (c :: w)
| balanced_braces (w w' : jsstring) :
    balanced w -> balanced w' -> balanced (LBRACE :: w ++ RBRACE :: w').

(** An upper bound of the nested calls [parse_value] makes on the print of
    a value. *)
Fixpoint vsize (v : value) : nat :=
  match v with
  | VArr l => S (list_sum (List.map (fun x => S (vsize x)) l))
  | VObj l => S (list_sum (List.map (fun kv => S (vsize (snd kv))) l))
  | _ => 1
  end.

(** After a number comes no digit, point or exponent mark. *)
Definition number_stop (rest : jsstring) : bool :=
  match rest with
  | [] => true
  | c :: _ => negb (is_digit c || (c =? 46) || (c =? 101) || (c =? 69))
  end.

Definition all_ws (s : jsstring) : bool := forallb is_json_space s.

(** The code units a parse consumes bound the fuel it needs. *)
Definition fuel_bounded {A : Type}
    (run : nat -> jsstring -> A -> option (value * jsstring)) (f : nat) : Prop :=
  forall s a v rest,
    run f s a = Some (v, rest) ->
    (List.length rest < List.length s)%nat /\
    forall f', (List.length s - List.length rest <= f')%nat ->
               run f' s a = Some (v, rest).

(** *** Printed values *)

(** The first unit of a printed value. *)
Definition value_head (c : N) : Prop :=
  c = 123 \/ c = 91 \/ c = 34 \/ c = 116 \/ c = 102 \/ c = 110 \/ c = 45 \/
  48 <= c <= 57.

(** The white space before each element and before the closing bracket. *)
Definition before_item (gap indent : jsstring) : jsstring :=
  match gap with [] => [] | _ => NEWLINE :: indent end.

(** [v], printed at any depth and followed by anything that is not part of
    a number, reads back as [v] and leaves what follows. *)
Definition reads_back (gap : jsstring) (v : value) : Prop :=
  forall indent rest fuel,
    all_ws indent = true -> number_stop rest = true -> (vsize v <= fuel)%nat ->
    parse_value fuel (SerializeJSONProperty gap indent v ++ rest) = Some (v, rest).

(** A property as it is printed. *)
Definition member (gap indent : jsstring) (kv : jsstring * value) : jsstring :=
  QuoteJSONString (fst kv) ++ colon gap ++ SerializeJSONProperty gap indent (snd kv).

(** What is between the braces of a printed object with properties. *)
Definition object_inner (gap stepback indent : jsstring) (partial : list jsstring)
  : jsstring :=
  before_item gap indent ++ join (44 :: before_item gap indent) partial ++
  before_item gap stepback.

(** ** Example inputs *)

Module Examples.

(** A string literal with ['] standing for the double quote and [|] for
    a line feed. *)
Definition lit (s : string) : jsstring :=
  List.map (fun c => if c =? 39 then DQUOTE else if c =? 124 then NEWLINE else c) (str s).

Definition declare (name : string) : FunctionDeclaration :=
  mkFunctionDeclaration (Some (str name)) None None.

(** [[{ functionDeclarations: [list_files] }]] *)
Definition tools_list_files : option (list Tool) :=
  Some [mkTool (Some (Some [declare "list_files"]))].

Definition generator : OllamaContentGenerator :=
  newOllamaContentGenerator None None.

Definition prompt40 : jsstring := str "Please list the files in this directory.".

(** [{ functionCall: { name: 'list_files', args: { dir: '.' } } }] *)
Definition call_list_files : FunctionCall :=
  mkFunctionCall (Some (VStr (str "list_files")))
                 (Some (VObj [(str "dir", VStr (str "."))])).

(** A request with one user turn and no [config]. *)
Definition request_hi : GenerateContentParameters :=
  mkRequest (CLString (str "hi")) None.

(** A request that declares [list_files] and has an empty system
    instruction. *)
Definition request_tools_no_system : GenerateContentParameters :=
  mkRequest (CLString (str "hi"))
            (Some (mkConfig (Some (CUString [])) tools_list_files None None)).

(** A request with a system instruction and a declared tool. *)
Definition request_system_tools : GenerateContentParameters :=
  mkRequest (CLArray [inl (str "hi");
                      inr (mkContent (Some (str "model")) (Some [textPart (str "hello")]));
                      inr (mkContent (Some (str "user")) (Some [textPart []]))])
            (Some (mkConfig (Some (CUString (str "Be brief."))) tools_list_files
                            None None)).

(** A tool list whose first entry holds no declarations and whose second
    entry declares [list_files]. *)
Definition tools_second_entry : option (list Tool) :=
  Some [mkTool (Some None); mkTool (Some (Some [declare "list_files"]))].

(** A tool list whose first entry is a tool of another kind, without the
    [functionDeclarations] key, and whose second entry declares
    [list_files]. *)
Definition tools_after_other_kind : option (list Tool) :=
  Some [mkTool None; mkTool (Some (Some [declare "list_files"]))].

(** [{"tool_call":{"name":"delete_everything","arguments":{}}}] *)
Definition text_undeclared_call : jsstring :=
  lit "{'tool_call':{'name':'delete_everything','arguments':{}}}".

(** The fenced call of [list_files] of the specification's scenario. *)
Definition text_fenced_call : jsstring :=
  FENCE ++ lit "json|{'tool_call':{'name':'list_files','arguments':{'dir':'.'}}}|" ++ FENCE.

Definition completion (content : jsstring) : OllamaCompletionResponse :=
  mkCompletion [mkChoice content (str "stop")] (mkOllamaUsage 12 7 19).

(** A backend that answers every request with the fenced call, as one
    completion or as two stream frames and the terminator, in three reads. *)
Definition frame1 : jsstring :=
  lit "{'choices':[{'index':0,'delta':{'content':'```json\n{\'tool_call\':{\'name\':'},'finish_reason':null}]}".
Definition frame2 : jsstring :=
  lit "{'choices':[{'index':0,'delta':{'content':'\'list_files\',\'arguments\':{\'dir\':\'.\'}}}\n```'},'finish_reason':'stop'}]}".

Definition backend_reads : list jsstring :=
  [str "data: " ++ firstn 30 frame1;
   skipn 30 frame1 ++ NL ++ NL ++ str "data: " ++ frame2 ++ NL;
   NL ++ str "data: [DONE]" ++ NL ++ NL].

Definition backend (_ : jsstring) (_ : OllamaRequest) : HttpResponse :=
  mkHttp true 200 [] (Some (completion text_fenced_call)) (Some backend_reads).

(** The chunks that [frame1] and [frame2] carry. *)
Definition chunk1 : OllamaStreamChunk :=
  mkChunk (Some (FENCE ++ lit "json|{'tool_call':{'name':")) None.
Definition chunk2 : OllamaStreamChunk :=
  mkChunk (Some (lit "'list_files','arguments':{'dir':'.'}}}|" ++ FENCE))
          (Some (str "stop")).

(** A stream of one frame whose [finish_reason] is the empty string. *)
Definition text_bare_call : jsstring := lit "{'tool_call':{'name':'list_files'}}".
Definition frame_empty_reason : jsstring :=
  lit "{'choices':[{'index':0,'delta':{'content':'{\'tool_call\':{\'name\':\'list_files\'}}'},'finish_reason':''}]}".
Definition chunk_empty_reason : OllamaStreamChunk :=
  mkChunk (Some text_bare_call) (Some []).

(** A call whose argument holds a closing brace in a string. *)
Definition call_with_brace : FunctionCall :=
  mkFunctionCall (Some (VStr (str "list_files")))
                 (Some (VObj [(str "dir", VStr (str "}"))])).

(** A call with nested arguments. *)
Definition call_nested : FunctionCall :=
  mkFunctionCall (Some (VStr (str "list_files")))
    (Some (VObj [(str "dir", VStr (lit "a 'b'|c"));
                 (str "depth", VNum (mkNumber false [1; 2] 3));
                 (str "scale", VNum (mkNumber true [2; 5] (-7)));
                 (str "filter", VObj [(str "ext", VArr [VStr (str "ts"); VNull]);
                                      (str "hidden", VBool false)])])).

(** A call whose argument holds a fenced pair of braces in a string. *)
Definition call_with_fence : FunctionCall :=
  mkFunctionCall (Some (VStr (str "list_files")))
                 (Some (VObj [(str "dir", VStr (FENCE ++ str "{}" ++ FENCE))])).

(** A stream of two frames that both carry the finish reason [stop]. *)
Definition frame_stop_call : jsstring :=
  lit "{'choices':[{'index':0,'delta':{'content':'{\'tool_call\':{\'name\':\'list_files\'}}'},'finish_reason':'stop'}]}".
Definition frame_stop_space : jsstring :=
  lit "{'choices':[{'index':0,'delta':{'content':' '},'finish_reason':'stop'}]}".
Definition chunk_stop_call : OllamaStreamChunk :=
  mkChunk (Some text_bare_call) (Some (str "stop")).
Definition chunk_stop_space : OllamaStreamChunk :=
  mkChunk (Some (str " ")) (Some (str "stop")).

(** Requests whose only tool entry declares nothing: the key
    [functionDeclarations] is there without a value, or holds an empty
    array. *)
Definition request_undefined_declarations : GenerateContentParameters :=
  mkRequest (CLString (str "hi"))
            (Some (mkConfig None (Some [mkTool (Some None)]) None None)).
Definition request_empty_declarations : GenerateContentParameters :=
  mkRequest (CLString (str "hi"))
            (Some (mkConfig None (Some [mkTool (Some (Some []))]) None None)).

End Examples.

(** ** Notions of the further properties *)

(** The start of a line: the beginning of the text or just after a line
    feed. *)
Definition lineStart (pre : jsstring) : Prop :=
  pre = [] \/ exists p, pre = p ++ NL.

(** A line of the stream that carries no chunk: it is not a [data: ] line,
    or its payload is the terminator, or is not JSON, or is JSON in which
    reading [choices[0]] throws. *)
Definition carriesNoChunk (line : jsstring) : Prop :=
  startsWith (str "data: ") line = false
  \/ slice 6 line = str "[DONE]"
  \/ JSON.parse (slice 6 line) = None
  \/ exists v, JSON.parse (slice 6 line) = Some v /\
               (get v (str "choices") = None \/ get v (str "choices") = Some VNull).

(** ** Further example inputs *)

Module Inputs.

(** A keep-alive comment of the line protocol. *)
Definition keep_alive : jsstring := str ": keep-alive".

End Inputs.

(** ** Strings *)

Lemma eqb_eq (a b : jsstring) : JS.eqb a b = true <-> a = b.
Proof.
  revert b; induction a as [|x a IH]; intros [|y b]; simpl; split;
    try discriminate; try reflexivity.
  - intros H. apply andb_true_iff in H as [H1 H2].
    apply N.eqb_eq in H1. apply IH in H2. now subst.
  - intros H. injection H as -> ->. rewrite N.eqb_refl. simpl. now apply IH.
Qed.

Lemma eqb_refl (a : jsstring) : JS.eqb a a = true.
Proof. now apply eqb_eq. Qed.

Lemma eqb_neq (a b : jsstring) : JS.eqb a b = false <-> a <> b.
Proof.
  split.
  - intros H E. apply eqb_eq in E. congruence.
  - intros H. destruct (JS.eqb a b) eqn:E; [|reflexivity].
    apply eqb_eq in E. contradiction.
Qed.

Lemma startsWith_iff (p s : jsstring) :
  startsWith p s = true <-> exists r, s = p ++ r.
Proof.
  revert s; induction p as [|x p IH]; intros s; simpl.
  - split; [intros _; now exists s | reflexivity].
  - destruct s as [|y s].
    + split; [discriminate | intros [r H]; discriminate].
    + rewrite andb_true_iff, N.eqb_eq, IH. split.
      * intros [-> [r ->]]. now exists r.
      * intros [r H]. injection H as -> ->. split; [reflexivity | now exists r].
Qed.

Lemma startsWith_app (p r : jsstring) : startsWith p (p ++ r) = true.
Proof. apply startsWith_iff. now exists r. Qed.

Lemma indexOf_Some (p s : jsstring) (i : nat) :
  indexOf p s = Some i -> exists a b, s = a ++ p ++ b /\ List.length a = i.
Proof.
  revert i; induction s as [|c s IH]; intros i; simpl.
  - destruct (startsWith p []) eqn:E; [|discriminate].
    intros [= <-]. apply startsWith_iff in E as [r E]. now exists [], r.
  - destruct (startsWith p (c :: s)) eqn:E.
    + intros [= <-]. apply startsWith_iff in E as [r E]. now exists [], r.
    + destruct (indexOf p s) as [j|]; [|discriminate].
      simpl. intros [= <-]. destruct (IH j eq_refl) as (a & b & -> & Hl).
      exists (c :: a), b. simpl. now rewrite Hl.
Qed.

Lemma indexOf_None (p s : jsstring) :
  indexOf p s = None -> forall a b, s <> a ++ p ++ b.
Proof.
  induction s as [|c s IH]; simpl.
  - destruct (startsWith p []) eqn:E; [discriminate|].
    intros _ a b H. destruct a; simpl in H.
    + assert (startsWith p [] = true) by (apply startsWith_iff; now exists b).
      congruence.
    + discriminate.
  - destruct (startsWith p (c :: s)) eqn:E; [discriminate|].
    destruct (indexOf p s) eqn:Ei; [discriminate|].
    intros _ a b H. destruct a as [|x a]; simpl in H.
    + assert (startsWith p (c :: s) = true) by (apply startsWith_iff; now exists b).
      congruence.
    + injection H as _ H. now apply (IH eq_refl a b).
Qed.

Lemma includes_iff (p s : jsstring) :
  includes p s = true <-> exists a b, s = a ++ p ++ b.
Proof.
  unfold includes. destruct (indexOf p s) as [i|] eqn:E.
  - split; [intros _|reflexivity].
    destruct (indexOf_Some _ _ _ E) as (a & b & H & _). now exists a, b.
  - split; [discriminate|]. intros (a & b & H).
    exfalso. exact (indexOf_None _ _ E a b H).
Qed.

Lemma join_nil_concat (xs : list jsstring) : join [] xs = concat xs.
Proof.
  induction xs as [|x [|y xs] IH]; simpl in *.
  - reflexivity.
  - now rewrite app_nil_r.
  - now rewrite IH.
Qed.

Lemma partsToText_concat (ps : list Part) :
  partsToText ps = concat (flat_map pushed ps).
Proof. apply join_nil_concat. Qed.

Lemma partsToText_app (ps qs : list Part) :
  partsToText (ps ++ qs) = partsToText ps ++ partsToText qs.
Proof.
  rewrite !partsToText_concat, flat_map_app, concat_app. reflexivity.
Qed.

Lemma partsToText_cons (p : Part) (ps : list Part) :
  partsToText (p :: ps) = concat (pushed p) ++ partsToText ps.
Proof.
  rewrite !partsToText_concat. simpl. now rewrite concat_app.
Qed.

Lemma partsToText_text (s : jsstring) : partsToText [textPart s] = s.
Proof.
  rewrite partsToText_concat. unfold pushed. simpl.
  destruct s; simpl; [reflexivity | now rewrite app_nil_r].
Qed.

(** ** Token estimate and embedding *)

(** C9: [embedContent] fails at once for every request, with the fixed
    message; it never returns a result. *)
Theorem embedContent_always_fails (request_contents : ContentListUnion) :
  embedContent request_contents = Err (str "Ollama embedContent not implemented")
  /\ forall r, embedContent request_contents <> Ok r.
Proof. split; [reflexivity | intros r H; discriminate H]. Qed.

Lemma ceil4_bounds (n : N) : n <= 4 * ((n + 3) / 4) /\ 4 * ((n + 3) / 4) < n + 4.
Proof.
  pose proof (N.div_mod' (n + 3) 4) as H.
  assert (H' : (n + 3) mod 4 < 4) by (apply N.mod_lt; discriminate).
  set (q := (n + 3) / 4) in *. set (r := (n + 3) mod 4) in *. lia.
Qed.

Lemma ceil4_mono (n m : N) : n <= m -> (n + 3) / 4 <= (m + 3) / 4.
Proof. intros H. apply N.Div0.div_le_mono. lia. Qed.



(** ** The message converter *)




Lemma convertRole_model (r : option jsstring) :
  r = Some (str "model") -> convertRole r = Some (str "assistant").
Proof. intros ->. reflexivity. Qed.

Lemma convertRole_other (r : option jsstring) :
  r <> Some (str "model") -> convertRole r = r.
Proof.
  intros H. destruct r as [s|]; [|reflexivity]. unfold convertRole.
  destruct (JS.eqb s (str "model")) eqn:E; [|reflexivity].
  apply eqb_eq in E. subst. contradiction.
Qed.

(** The messages made from the turns. *)
Lemma turn_messages (turns : list Content) :
  let msgs := convertToOllamaMessages turns None in
  Forall2 turnMessage (filter (fun c => nonEmpty (flattenTurn c)) turns) msgs
  /\ Forall (fun m => om_content m <> []) msgs
  /\ Forall (fun m => exists c, In c turns /\ om_content m = flattenTurn c) msgs.
Proof.
  unfold convertToOllamaMessages. simpl.
  induction turns as [|c turns (IH1 & IH2 & IH3)]; simpl.
  - repeat split; constructor.
  - fold (flattenTurn c). destruct (flattenTurn c) as [|x t] eqn:E; simpl.
    + repeat split; try assumption.
      eapply Forall_impl; [|exact IH3]. intros m (c' & Hin & Hc). eauto.
    + repeat split.
      * constructor; [|assumption]. repeat split; simpl.
        -- now rewrite E.
        -- apply convertRole_model.
        -- apply convertRole_other.
      * constructor; [simpl; discriminate | assumption].
      * constructor; [exists c; simpl; rewrite E; auto|].
        eapply Forall_impl; [|exact IH3]. intros m (c' & Hin & Hc). eauto.
Qed.

Lemma convertToOllamaMessages_system (turns : list Content) (systemText : jsstring) :
  convertToOllamaMessages turns (Some (SIString systemText)) =
  match systemText with
  | [] => convertToOllamaMessages turns None
  | _ => mkMessage (Some (str "system")) systemText :: convertToOllamaMessages turns None
  end.
Proof. destruct systemText; reflexivity. Qed.

Lemma addToolInstructions_prefix (s : jsstring) (tools : option (list Tool)) :
  exists suffix, addToolInstructions s tools = s ++ suffix.
Proof.
  unfold addToolInstructions.
  destruct tools as [[|t ts]|]; try (exists []; now rewrite app_nil_r).
  destruct (functionDeclarations t) as [[[|f fs]|]|];
    try (exists []; now rewrite app_nil_r).
  eexists. reflexivity.
Qed.

Lemma injectedSystemText_nonempty (request : GenerateContentParameters) :
  requestSystemText request <> [] ->
  injectedSystemText request =
    addToolInstructions (requestSystemText request) (requestTools request)
  /\ injectedSystemText request <> [].
Proof.
  intros H. unfold injectedSystemText.
  destruct (requestSystemText request) as [|c s] eqn:E; [contradiction|].
  split; [reflexivity|].
  destruct (addToolInstructions_prefix (c :: s) (requestTools request)) as [x ->].
  discriminate.
Qed.

Lemma generic_turn_not_system (c : Content) (m : OllamaMessage) :
  genericRole c -> turnMessage c m -> isSystem m = false.
Proof.
  intros [H|H] (_ & Hm & Ho); unfold isSystem.
  - rewrite Ho, H; [reflexivity|]. rewrite H. discriminate.
  - rewrite (Hm H). reflexivity.
Qed.

Lemma generic_turns_not_system (turns : list Content) (msgs : list OllamaMessage) :
  Forall genericRole turns ->
  Forall2 turnMessage (filter (fun c => nonEmpty (flattenTurn c)) turns) msgs ->
  Forall (fun m => isSystem m = false) msgs.
Proof.
  intros Hg H.
  assert (Hf : Forall genericRole (filter (fun c => nonEmpty (flattenTurn c)) turns)).
  { apply Forall_forall. intros c Hin. apply filter_In in Hin as [Hin _].
    revert c Hin. now apply Forall_forall. }
  induction H as [|c m cs ms Hcm H IH]; constructor.
  - inversion Hf; subst. eapply generic_turn_not_system; eauto.
  - apply IH. now inversion Hf.
Qed.

(** C7, as the code has it: the turns whose flattened content is not empty
    become, in order, one message each, with role [model] turned into
    [assistant] and any other role kept; no message has empty content.  When
    the system instruction flattens to a non-empty text, one system message
    comes first, holding that text followed by the tool instructions, and
    for turns with the roles [user] and [model] it is the only one.  When
    the system text is empty there is no system message from it. *)
Theorem backend_messages_shape
    (this : OllamaContentGenerator) (request : GenerateContentParameters)
    (stream : bool) :
  let msgs := rq_messages (ollamaRequest this request stream) in
  let turns := normalizeContents (contents request) in
  exists turnMsgs,
    Forall2 turnMessage (filter (fun c => nonEmpty (flattenTurn c)) turns) turnMsgs
    /\ (requestSystemText request <> [] ->
         msgs = mkMessage (Some (str "system"))
                  (addToolInstructions (requestSystemText request)
                                       (requestTools request)) :: turnMsgs
         /\ (Forall genericRole turns -> exactly_one_system_first msgs))
    /\ (requestSystemText request = [] ->
         msgs = turnMsgs
         /\ (Forall genericRole turns -> Forall (fun m => isSystem m = false) msgs))
    /\ Forall (fun m => om_content m <> []) msgs.
Proof.
  simpl. set (turns := normalizeContents (contents request)).
  destruct (turn_messages turns) as (H1 & H2 & _). simpl in H1, H2.
  exists (convertToOllamaMessages turns None).
  rewrite convertToOllamaMessages_system.
  split; [exact H1|]. split; [|split].
  - intros Hs. destruct (injectedSystemText_nonempty request Hs) as [-> Hne].
    destruct (addToolInstructions (requestSystemText request) (requestTools request))
      as [|c s] eqn:E; [contradiction|].
    split; [reflexivity|]. intros Hg.
    eexists _, _. split; [reflexivity|]. split; [reflexivity|].
    eapply generic_turns_not_system; eauto.
  - intros Hs. unfold injectedSystemText. rewrite Hs. split; [reflexivity|].
    intros Hg. eapply generic_turns_not_system; eauto.
  - destruct (injectedSystemText request) as [|c s]; [exact H2|].
    constructor; [simpl; discriminate | exact H2].
Qed.

Lemma backend_messages_witness :
  exactly_one_system_first
    (rq_messages (ollamaRequest Examples.generator Examples.request_system_tools false))
  /\ Forall (fun m => isSystem m = false)
       (rq_messages (ollamaRequest Examples.generator Examples.request_hi true)).
Proof.
  split.
  - destruct (backend_messages_shape Examples.generator Examples.request_system_tools
                false) as (tm & _ & Hs & _ & _).
    apply Hs.
    + vm_compute. discriminate.
    + repeat apply Forall_cons; try apply Forall_nil; unfold genericRole; simpl; auto.
  - destruct (backend_messages_shape Examples.generator Examples.request_hi true)
      as (tm & _ & _ & He & _).
    apply He.
    + reflexivity.
    + repeat apply Forall_cons; try apply Forall_nil; unfold genericRole; simpl; auto.
Defined.

(** C7, as the specification has it, fails: a request without a system
    instruction gets no system message. *)
Lemma no_system_message_without_instruction :
  ~ exactly_one_system_first
      (rq_messages (ollamaRequest Examples.generator Examples.request_hi false)).
Proof.
  intros (m & rest & H & Hs & _). vm_compute in H.
  injection H as <- _. vm_compute in Hs. discriminate Hs.
Qed.



(** ** The extractor *)

Lemma includesName_In (names : list (option jsstring)) (v : value) :
  includesName names v = true <-> exists s, v = VStr s /\ In (Some s) names.
Proof.
  unfold includesName. destruct v; try (split; [discriminate | intros (s & [=] & _)]).
  rewrite existsb_exists. split.
  - intros ([t|] & Hin & E); [|discriminate]. apply eqb_eq in E. subst. eauto.
  - intros (t & [= <-] & Hin). exists (Some s). split; [exact Hin | apply eqb_refl].
Qed.

Lemma includesName_app (a b : list (option jsstring)) (v : value) :
  includesName (a ++ b) v = includesName a v || includesName b v.
Proof. destruct v; simpl; try reflexivity. apply existsb_app. Qed.

(** The result of [parseToolCall] in terms of what extraction finds. *)
Lemma parseToolCall_found (text : jsstring) (tools : option (list Tool)) :
  match parseToolCall text tools with
  | Some fc => exists name, foundToolName text = Some name /\ fc_name fc = Some name
  | None => True
  end.
Proof.
  unfold parseToolCall, foundToolName.
  destruct (extractJsonText text) as [j|]; [|exact I].
  destruct (JSON.parse j) as [parsed|]; [|exact I].
  destruct (get parsed (str "tool_call")) as [tc|]; [|exact I].
  destruct (truthy tc); [|exact I]. simpl.
  destruct (get tc (str "name")) as [n|]; [|exact I]. simpl.
  destruct (truthy n); [|exact I].
  match goal with |- context [if ?b then None else _] => destruct b end;
    [exact I|]. simpl. eauto.
Qed.

Lemma parseToolCall_validates (text : jsstring) fns rest (name : value) :
  foundToolName text = Some name ->
  includesName (List.map fd_name fns) name = false ->
  parseToolCall text (Some (mkTool (Some (Some fns)) :: rest)) = None.
Proof.
  unfold parseToolCall, foundToolName.
  destruct (extractJsonText text) as [j|]; [|reflexivity].
  destruct (JSON.parse j) as [parsed|]; [|reflexivity].
  destruct (get parsed (str "tool_call")) as [tc|]; [|reflexivity].
  destruct (truthy tc); [|reflexivity]. simpl.
  destruct (get tc (str "name")) as [n|]; [|reflexivity]. simpl.
  destruct (truthy n); [|reflexivity].
  intros [= ->] H. now rewrite H.
Qed.




(** ** Requests without declared tools *)

Lemma noTools_hasTools (tools : option (list Tool)) :
  noTools tools -> hasTools tools = false.
Proof.
  intros [->|[->|(t & rest & -> & H)]]; simpl; try reflexivity. now rewrite H.
Qed.

Lemma textOnly_textEvent (c : value) (f : option value) : textOnly (textEvent c f).
Proof.
  unfold textOnly, textEvent. simpl. repeat constructor. simpl. eauto.
Qed.

(** The calls that can reach the extractor for a tool list whose first entry
    holds an empty array of declarations all come back empty. *)
Lemma parseToolCall_empty_declarations (text : jsstring) (rest : list Tool) :
  parseToolCall text (Some (mkTool (Some (Some [])) :: rest)) = None.
Proof.
  pose proof (parseToolCall_found text (Some (mkTool (Some (Some [])) :: rest))) as H.
  destruct (parseToolCall text _) as [fc|] eqn:E; [|reflexivity].
  destruct H as (name & Hf & _).
  rewrite (parseToolCall_validates text [] rest name Hf) in E; [discriminate|].
  now destruct name.
Qed.

Lemma onChunk_no_tools extract tools acc chunk :
  hasTools tools = false \/ (forall text, extract text tools = None) ->
  onChunk extract tools acc chunk = onChunk noExtract tools acc chunk.
Proof.
  intros H. unfold onChunk, noExtract.
  destruct (get chunk (str "choices")) as [choices|]; [|reflexivity].
  destruct choices; try reflexivity;
    (destruct (get_opt (get_opt _ (str "delta")) (str "content")) as [c|];
     [destruct (truthy c)|]; cbv beta iota zeta;
     (destruct (truthy_opt _); [|reflexivity]);
     (destruct H as [H|H];
      [rewrite H; reflexivity
      |destruct (hasTools tools); [rewrite H|]; reflexivity])).
Qed.

Lemma onChunk_noExtract_textOnly tools acc chunk acc' evs :
  onChunk noExtract tools acc chunk = Some (acc', evs) -> Forall textOnly evs.
Proof.
  unfold onChunk, noExtract.
  destruct (get chunk (str "choices")) as [choices|]; [|discriminate].
  destruct choices; try discriminate;
    (destruct (get_opt (get_opt _ (str "delta")) (str "content")) as [c|];
     [destruct (truthy c)|];
     destruct (truthy_opt _); destruct (hasTools tools);
     intros [= <- <-]; simpl;
     repeat (apply Forall_cons; [apply textOnly_textEvent|]); apply Forall_nil).
Qed.

Lemma onLine_no_tools extract tools acc line :
  hasTools tools = false \/ (forall text, extract text tools = None) ->
  onLine extract tools acc line = onLine noExtract tools acc line.
Proof.
  intros H. unfold onLine.
  destruct (startsWith _ line); [|reflexivity].
  destruct (JS.eqb _ _); [reflexivity|].
  destruct (JSON.parse _); [|reflexivity].
  now rewrite (onChunk_no_tools extract).
Qed.

Lemma onLine_noExtract_textOnly tools acc line :
  Forall textOnly (snd (onLine noExtract tools acc line)).
Proof.
  unfold onLine.
  destruct (startsWith _ line); [|constructor].
  destruct (JS.eqb _ _); [constructor|].
  destruct (JSON.parse _) as [chunk|]; [|constructor].
  destruct (onChunk noExtract tools acc chunk) as [[acc' evs]|] eqn:E; [|constructor].
  simpl. eapply onChunk_noExtract_textOnly; eauto.
Qed.

Lemma onLines_no_tools extract tools lines : forall acc,
  hasTools tools = false \/ (forall text, extract text tools = None) ->
  onLines extract tools acc lines = onLines noExtract tools acc lines.
Proof.
  induction lines as [|l ls IH]; intros acc H; simpl; [reflexivity|].
  rewrite (onLine_no_tools extract) by exact H.
  destruct (onLine noExtract tools acc l) as [acc1 ev1].
  now rewrite IH.
Qed.

Lemma onLines_noExtract_textOnly tools lines : forall acc,
  Forall textOnly (snd (onLines noExtract tools acc lines)).
Proof.
  induction lines as [|l ls IH]; intros acc; simpl; [constructor|].
  pose proof (onLine_noExtract_textOnly tools acc l) as H1.
  destruct (onLine noExtract tools acc l) as [acc1 ev1].
  specialize (IH acc1).
  destruct (onLines noExtract tools acc1 ls) as [acc2 ev2].
  simpl in *. apply Forall_app. now split.
Qed.

Lemma readLoop_no_tools extract tools reads : forall buffer acc,
  hasTools tools = false \/ (forall text, extract text tools = None) ->
  readLoop extract tools buffer acc reads = readLoop noExtract tools buffer acc reads.
Proof.
  induction reads as [|r rs IH]; intros buffer acc H; simpl; [reflexivity|].
  rewrite (onLines_no_tools extract) by exact H.
  destruct (onLines noExtract tools acc _) as [acc' ev].
  now rewrite IH.
Qed.

Lemma readLoop_noExtract_textOnly tools reads : forall buffer acc,
  Forall textOnly (readLoop noExtract tools buffer acc reads).
Proof.
  induction reads as [|r rs IH]; intros buffer acc; simpl; [constructor|].
  pose proof (onLines_noExtract_textOnly tools
                (removelast (split_nl (buffer ++ r))) acc) as H1.
  destruct (onLines noExtract tools acc _) as [acc' ev].
  simpl in H1. apply Forall_app. split; [exact H1 | apply IH].
Qed.

Lemma convert_no_tools extract ollamaResponse tools :
  hasTools tools = false \/ (forall text, extract text tools = None) ->
  convertToGeminiResponseWith extract ollamaResponse tools =
  convertToGeminiResponseWith noExtract ollamaResponse tools.
Proof.
  intros H. unfold convertToGeminiResponseWith, noExtract.
  destruct (choices ollamaResponse) as [|choice rest]; [reflexivity|].
  destruct H as [H|H]; [now rewrite H|].
  destruct (hasTools tools); [now rewrite H | reflexivity].
Qed.

Lemma convert_noExtract_textOnly ollamaResponse tools r :
  convertToGeminiResponseWith noExtract ollamaResponse tools = Ok r -> textOnly r.
Proof.
  unfold convertToGeminiResponseWith, noExtract.
  destruct (choices ollamaResponse) as [|choice rest]; [discriminate|].
  destruct (hasTools tools); intros [= <-];
    unfold textOnly; simpl; repeat constructor; simpl; eauto.
Qed.

(** C6, as the code has it: for a request whose tool list is absent or empty,
    or whose first entry has no [functionDeclarations] key or holds an empty
    array of them, every response, single-shot or streamed, holds text parts
    only; in the first three cases neither path consults the extractor: the
    outcome is the same whatever extractor is plugged in. *)
Theorem no_declared_tools_text_only
    (extract : jsstring -> option (list Tool) -> option FunctionCall)
    (this : OllamaContentGenerator)
    (fetch : jsstring -> OllamaRequest -> HttpResponse)
    (request : GenerateContentParameters) :
  noTools (requestTools request) \/ emptyDeclarations (requestTools request) ->
  (noTools (requestTools request) ->
   generateContentWith extract this fetch request = generateContent this fetch request
   /\ generateContentStreamInternalWith extract this fetch request =
      generateContentStreamInternal this fetch request)
  /\ (forall r, generateContent this fetch request = Ok r -> textOnly r)
  /\ (forall rs, generateContentStreamInternal this fetch request = Ok rs ->
                 Forall textOnly rs).
Proof.
  intros Hn.
  assert (Hq : hasTools (requestTools request) = false \/
               forall text, parseToolCall text (requestTools request) = None).
  { destruct Hn as [Hn|(rest & ->)].
    - left. now apply noTools_hasTools.
    - right. intros text. apply parseToolCall_empty_declarations. }
  unfold generateContent, generateContentStreamInternal,
    generateContentWith, generateContentStreamInternalWith.
  split; [|split].
  - intros Hno. apply noTools_hasTools in Hno. split.
    + destruct (negb _); [reflexivity|]. destruct (body_json _); [|reflexivity].
      rewrite (convert_no_tools extract), (convert_no_tools parseToolCall); auto.
    + destruct (negb _); [reflexivity|]. destruct (body _); [|reflexivity].
      rewrite (readLoop_no_tools extract), (readLoop_no_tools parseToolCall); auto.
  - intros r. destruct (negb _); [discriminate|].
    destruct (body_json _); [|discriminate].
    rewrite (convert_no_tools parseToolCall) by exact Hq.
    apply convert_noExtract_textOnly.
  - intros rs. destruct (negb _); [discriminate|].
    destruct (body _); [|discriminate].
    rewrite (readLoop_no_tools parseToolCall) by exact Hq.
    intros [= <-]. apply readLoop_noExtract_textOnly.
Qed.

Lemma no_declared_tools_witness :
  generateContentWith noExtract Examples.generator Examples.backend Examples.request_hi
  = generateContent Examples.generator Examples.backend Examples.request_hi.
Proof.
  assert (Hn : noTools (requestTools Examples.request_hi)) by (left; reflexivity).
  exact (proj1 (proj1 (no_declared_tools_text_only noExtract Examples.generator
                         Examples.backend Examples.request_hi (or_introl Hn)) Hn)).
Defined.

(** C6, as the specification has it, fails.  A request whose only tool entry
    carries the [functionDeclarations] key without a value declares no tool,
    yet both paths hand the answer of the backend to the extractor, which
    does not validate, and the call is surfaced.  A request whose only tool
    entry holds an empty array declares no tool either, and its outcome
    depends on the extractor: it is consulted. *)
Lemma undeclared_request_reaches_extractor :
  (declaredToolNames (requestTools Examples.request_undefined_declarations) = []
   /\ (exists r,
         generateContent Examples.generator Examples.backend
                         Examples.request_undefined_declarations = Ok r
         /\ responseCalls r = [Examples.call_list_files]
         /\ responseTexts r = []
         /\ ~ textOnly r)
   /\ (exists rs,
         generateContentStreamInternal Examples.generator Examples.backend
                                       Examples.request_undefined_declarations = Ok rs
         /\ flat_map responseCalls rs = [Examples.call_list_files]
         /\ ~ Forall textOnly rs))
  /\
  (declaredToolNames (requestTools Examples.request_empty_declarations) = []
   /\ generateContentWith (fun _ _ => Some Examples.call_list_files)
        Examples.generator Examples.backend Examples.request_empty_declarations
      <> generateContent Examples.generator Examples.backend
                         Examples.request_empty_declarations
   /\ generateContentStreamInternalWith (fun _ _ => Some Examples.call_list_files)
        Examples.generator Examples.backend Examples.request_empty_declarations
      <> generateContentStreamInternal Examples.generator Examples.backend
                                       Examples.request_empty_declarations).
Proof.
  split; [split; [reflexivity|split]|split; [reflexivity|split]].
  - eexists. split; [vm_compute; reflexivity|].
    split; [reflexivity|]. split; [reflexivity|].
    intros H. inversion H as [|c cs Hc _]; subst.
    inversion Hc as [|p ps Hp _]; subst. destruct Hp as [Hp _]. discriminate Hp.
  - eexists. split; [vm_compute; reflexivity|].
    split; [reflexivity|].
    intros H. apply Forall_forall with (x := functionCallEvent Examples.call_list_files) in H.
    + inversion H as [|c cs Hc _]; subst.
      inversion Hc as [|p ps Hp _]; subst. destruct Hp as [Hp _]. discriminate Hp.
    + vm_compute. auto 10.
  - intros H. vm_compute in H. discriminate H.
  - intros H. vm_compute in H. discriminate H.
Qed.

(** ** The streaming loop *)

Lemma split_nl_nonempty (s : jsstring) : split_nl s <> [].
Proof.
  induction s as [|c s IH]; simpl; [discriminate|].
  destruct (c =? NEWLINE); [discriminate|].
  destruct (split_nl s); discriminate.
Qed.

Lemma split_nl_line (l rest : jsstring) :
  ~ In NEWLINE l -> split_nl (l ++ NEWLINE :: rest) = l :: split_nl rest.
Proof.
  induction l as [|c l IH]; intros H; simpl.
  - reflexivity.
  - destruct (N.eqb_spec c NEWLINE) as [->|Hc].
    + exfalso. apply H. now left.
    + rewrite IH; [reflexivity|]. intros Hin. apply H. now right.
Qed.

(** Splitting a text that arrives in two pieces. *)
Lemma split_nl_app (x y : jsstring) :
  split_nl (x ++ y) =
  removelast (split_nl x) ++ split_nl (last (split_nl x) [] ++ y).
Proof.
  induction x as [|c x IH]; simpl.
  - reflexivity.
  - destruct (c =? NEWLINE) eqn:Ec.
    + pose proof (split_nl_nonempty x) as Hne.
      destruct (split_nl x) as [|l ls] eqn:E; [contradiction|].
      rewrite IH. reflexivity.
    + rewrite IH. pose proof (split_nl_nonempty x) as Hne.
      destruct (split_nl x) as [|l [|l' ls]] eqn:E; [contradiction| |].
      * simpl. rewrite Ec.
        pose proof (split_nl_nonempty (l ++ y)) as Hne'.
        destruct (split_nl (l ++ y)); [contradiction | reflexivity].
      * reflexivity.
Qed.

(** What is left in the buffer holds no line feed. *)
Lemma split_nl_last (s : jsstring) :
  split_nl (last (split_nl s) []) = [last (split_nl s) []].
Proof.
  induction s as [|c s IH]; simpl.
  - reflexivity.
  - destruct (N.eqb_spec c NEWLINE) as [->|Hc].
    + pose proof (split_nl_nonempty s) as Hne.
      destruct (split_nl s) as [|l ls] eqn:E; [contradiction|]. exact IH.
    + pose proof (split_nl_nonempty s) as Hne.
      destruct (split_nl s) as [|l [|l' ls]] eqn:E; [contradiction| |].
      * simpl in *. apply N.eqb_neq in Hc. rewrite Hc, IH. reflexivity.
      * exact IH.
Qed.

Lemma onLines_app extract tools (xs ys : list jsstring) : forall acc,
  onLines extract tools acc (xs ++ ys) =
  let (acc1, ev1) := onLines extract tools acc xs in
  let (acc2, ev2) := onLines extract tools acc1 ys in
  (acc2, ev1 ++ ev2).
Proof.
  induction xs as [|x xs IH]; intros acc; simpl.
  - destruct (onLines extract tools acc ys). reflexivity.
  - destruct (onLine extract tools acc x) as [a1 e1].
    rewrite IH. destruct (onLines extract tools a1 xs) as [a2 e2].
    destruct (onLines extract tools a2 ys) as [a3 e3].
    now rewrite app_assoc.
Qed.

(** The loop over the reads handles, in order, the complete lines of the
    whole text received, however the text is cut into reads. *)
Lemma readLoop_lines extract tools (reads : list jsstring) : forall buffer acc,
  split_nl buffer = [buffer] ->
  readLoop extract tools buffer acc reads =
  snd (onLines extract tools acc (removelast (split_nl (buffer ++ concat reads)))).
Proof.
  induction reads as [|r rs IH]; intros buffer acc Hb; simpl.
  - rewrite app_nil_r, Hb. reflexivity.
  - rewrite app_assoc, (split_nl_app (buffer ++ r)).
    rewrite removelast_app by apply split_nl_nonempty.
    rewrite onLines_app.
    destruct (onLines extract tools acc (removelast (split_nl (buffer ++ r))))
      as [acc1 ev1].
    rewrite (IH _ acc1) by apply split_nl_last.
    destruct (onLines extract tools acc1 _) as [acc2 ev2]. reflexivity.
Qed.

Lemma sse_stream_cons (d : jsstring) (ds : list jsstring) :
  sse_stream (d :: ds) =
  (str "data: " ++ d) ++ NEWLINE :: ([] ++ NEWLINE :: sse_stream ds).
Proof.
  unfold sse_stream, sse_frame, NL. simpl. rewrite <- !app_assoc. reflexivity.
Qed.

Lemma sse_lines (datas : list jsstring) :
  Forall (fun d => ~ In NEWLINE d) datas ->
  removelast (split_nl (sse_stream datas)) =
  frameLines datas ++ [str "data: [DONE]"; []].
Proof.
  set (tail := [str "data: [DONE]"; []]).
  induction 1 as [|d ds Hd Hds IH].
  - reflexivity.
  - rewrite sse_stream_cons, split_nl_line.
    + rewrite split_nl_line by (intros []).
      pose proof (split_nl_nonempty (sse_stream ds)) as Hne.
      change (frameLines (d :: ds)) with ((str "data: " ++ d) :: [] :: frameLines ds).
      change (((str "data: " ++ d) :: [] :: frameLines ds) ++ tail)
        with ((str "data: " ++ d) :: [] :: (frameLines ds ++ tail)).
      rewrite <- IH.
      destruct (split_nl (sse_stream ds)) as [|l ls] eqn:E; [contradiction|].
      reflexivity.
    + intros Hin. apply in_app_or in Hin as [Hin|Hin]; [|contradiction].
      vm_compute in Hin. intuition discriminate.
Qed.

Lemma streamText_app (a b : list GenerateContentResponse) :
  streamText (a ++ b) = streamText a ++ streamText b.
Proof. unfold streamText. now rewrite flat_map_app, concat_app. Qed.

Lemma streamText_override extract tools acc finish :
  streamText (overrideOf extract tools acc finish) = [].
Proof.
  unfold overrideOf. destruct finish as [[|c r]|]; try reflexivity.
  destruct (if hasTools tools then extract acc tools else None); reflexivity.
Qed.

Lemma parse_DONE : JSON.parse (str "[DONE]") = None.
Proof. reflexivity. Qed.

(** One chunk: its text is appended and yielded as a text increment, then
    comes the override, if any. *)
Lemma onChunk_decodes extract tools acc v ch :
  decodes v ch ->
  exists yielded,
    onChunk extract tools acc v =
      Some (acc ++ chunkText ch,
            yielded ++ overrideOf extract tools (acc ++ chunkText ch)
                                  (chunk_finish_reason ch))
    /\ Forall textOnly yielded
    /\ streamText yielded = chunkText ch.
Proof.
  intros (rest & fields & delta & Hc & Hd & Hcontent & Hfin).
  unfold onChunk. rewrite Hc. simpl. rewrite Hd. simpl. rewrite Hcontent.
  unfold chunkText, overrideOf.
  assert (Hf : truthy_opt (lookup (str "finish_reason") fields) =
               match chunk_finish_reason ch with Some (_ :: _) => true | _ => false end).
  { destruct (chunk_finish_reason ch) as [[|c r]|].
    - now rewrite Hfin.
    - now rewrite Hfin.
    - destruct Hfin as [-> | ->]; reflexivity. }
  destruct (delta_content ch) as [[|c t]|]; simpl.
  - exists []. rewrite app_nil_r, Hf.
    destruct (chunk_finish_reason ch) as [[|x r]|]; repeat split; constructor.
  - eexists [_]. rewrite Hf. split; [|split].
    + destruct (chunk_finish_reason ch) as [[|x r]|]; reflexivity.
    + apply Forall_cons; [apply textOnly_textEvent | apply Forall_nil].
    + unfold streamText. simpl. now rewrite app_nil_r.
  - exists []. rewrite app_nil_r, Hf.
    destruct (chunk_finish_reason ch) as [[|x r]|]; repeat split; constructor.
Qed.

Lemma onLine_frame extract tools acc d ch :
  frameOf d ch ->
  exists yielded,
    onLine extract tools acc (str "data: " ++ d) =
      (acc ++ chunkText ch,
       yielded ++ overrideOf extract tools (acc ++ chunkText ch)
                             (chunk_finish_reason ch))
    /\ Forall textOnly yielded
    /\ streamText yielded = chunkText ch.
Proof.
  intros (Hnl & v & Hp & Hdec).
  destruct (onChunk_decodes extract tools acc v ch Hdec) as (y & Hy & Ht & Hs).
  exists y. split; [|now split].
  unfold onLine. rewrite startsWith_app.
  change (slice 6 (str "data: " ++ d)) with d.
  destruct (JS.eqb d (str "[DONE]")) eqn:E.
  - apply eqb_eq in E. subst d. rewrite parse_DONE in Hp. discriminate.
  - now rewrite Hp, Hy.
Qed.

Lemma onLine_blank extract tools acc : onLine extract tools acc [] = (acc, []).
Proof. reflexivity. Qed.

(** The frames of a stream: all text is yielded, in order. *)
Lemma onLines_frames extract tools datas chunks :
  Forall2 frameOf datas chunks ->
  forall acc,
  exists events,
    onLines extract tools acc (frameLines datas) = (acc ++ chunksText chunks, events)
    /\ streamText events = chunksText chunks
    /\ (Forall (fun ch => chunk_finish_reason ch = None) chunks ->
        Forall textOnly events).
Proof.
  induction 1 as [|d ch ds chs Hf Hfs IH]; intros acc.
  - exists []. simpl. rewrite app_nil_r. repeat split. constructor.
  - destruct (onLine_frame extract tools acc d ch Hf) as (y & Hy & Ht & Hs).
    destruct (IH (acc ++ chunkText ch)) as (evs & He & Hse & Hte).
    exists ((y ++ overrideOf extract tools (acc ++ chunkText ch)
                             (chunk_finish_reason ch)) ++ evs).
    split; [|split].
    + change (frameLines (d :: ds))
        with ((str "data: " ++ d) :: [] :: frameLines ds).
      cbn [onLines]. rewrite Hy, onLine_blank, He.
      unfold chunksText. simpl. now rewrite app_assoc.
    + rewrite !streamText_app, streamText_override, Hs, Hse, app_nil_r.
      reflexivity.
    + intros Hall. inversion Hall as [|? ? Hch Hchs]; subst.
      rewrite Hch. simpl. rewrite app_nil_r. apply Forall_app. auto.
Qed.

Lemma frameOf_no_newline datas chunks :
  Forall2 frameOf datas chunks -> Forall (fun d => ~ In NEWLINE d) datas.
Proof. induction 1 as [|d ch ds chs [H _]]; constructor; auto. Qed.

(** The whole stream, cut into reads in any way. *)
Lemma readLoop_stream extract tools reads datas :
  concat reads = sse_stream datas ->
  Forall (fun d => ~ In NEWLINE d) datas ->
  readLoop extract tools [] [] reads =
  snd (onLines extract tools [] (frameLines datas)).
Proof.
  intros Hr Hn. rewrite readLoop_lines by reflexivity. simpl.
  rewrite Hr, sse_lines by exact Hn.
  rewrite onLines_app.
  destruct (onLines extract tools [] (frameLines datas)) as [acc ev].
  simpl. now rewrite app_nil_r.
Qed.

Lemma textOnly_no_calls (events : list GenerateContentResponse) :
  Forall textOnly events -> flat_map responseCalls events = [].
Proof.
  induction 1 as [|r rs Hr Hrs IH]; simpl; [reflexivity|].
  rewrite IH, app_nil_r. unfold responseCalls. unfold textOnly in Hr.
  induction Hr as [|c cs Hc Hcs IHc]; simpl; [reflexivity|].
  rewrite IHc, app_nil_r.
  induction Hc as [|p ps [Hp _] Hps IHp]; simpl; [reflexivity|].
  now rewrite Hp, IHp.
Qed.

(** C5, as the code has it: for chunks delivered as frames of the line
    protocol, cut into reads in any way, the text increments yielded by the
    streaming loop concatenate to the content of the completion that holds
    the same text.  The single-shot path returns that content as its one
    text part when it extracts no tool call from it, and a function call
    without any text when it does. *)
Theorem stream_text_is_completion_content
    (tools : option (list Tool)) (datas : list jsstring)
    (chunks : list OllamaStreamChunk) (reads : list jsstring)
    (completion : OllamaCompletionResponse) (choice : OllamaChoice)
    (others : list OllamaChoice) :
  Forall2 frameOf datas chunks ->
  concat reads = sse_stream datas ->
  choices completion = choice :: others ->
  message_content choice = chunksText chunks ->
  streamText (readLoop parseToolCall tools [] [] reads) = message_content choice
  /\ exists r,
       convertToGeminiResponse completion tools = Ok r /\
       match (if hasTools tools
              then parseToolCall (message_content choice) tools else None) with
       | None => responseTexts r = [message_content choice] /\ responseCalls r = []
       | Some call => responseTexts r = [] /\ responseCalls r = [call]
       end.
Proof.
  intros Hf Hr Hc Hm. split.
  - rewrite (readLoop_stream parseToolCall tools reads datas Hr)
      by (eapply frameOf_no_newline; eauto).
    destruct (onLines_frames parseToolCall tools datas chunks Hf [])
      as (events & He & Hs & _).
    rewrite He. simpl. now rewrite Hs, Hm.
  - unfold convertToGeminiResponse, convertToGeminiResponseWith. rewrite Hc.
    eexists. split; [reflexivity|].
    destruct (if hasTools tools
              then parseToolCall (message_content choice) tools else None);
      split; reflexivity.
Qed.

Lemma examples_frames :
  Forall2 frameOf [Examples.frame1; Examples.frame2] [Examples.chunk1; Examples.chunk2].
Proof.
  repeat apply Forall2_cons; try apply Forall2_nil; split.
  - intros H. vm_compute in H. intuition discriminate.
  - eexists. split; [vm_compute; reflexivity|].
    eexists _, _, _. repeat split. left. reflexivity.
  - intros H. vm_compute in H. intuition discriminate.
  - eexists. split; [vm_compute; reflexivity|].
    eexists _, _, _. repeat split.
Defined.

Lemma stream_text_witness :
  streamText (readLoop parseToolCall Examples.tools_list_files [] []
                       Examples.backend_reads)
  = Examples.text_fenced_call.
Proof.
  apply (stream_text_is_completion_content Examples.tools_list_files
           [Examples.frame1; Examples.frame2] [Examples.chunk1; Examples.chunk2]
           Examples.backend_reads (Examples.completion Examples.text_fenced_call)
           (mkChoice Examples.text_fenced_call (str "stop")) []).
  - exact examples_frames.
  - vm_compute. reflexivity.
  - reflexivity.
  - vm_compute. reflexivity.
Defined.

(** C5, as the specification has it, fails: for a backend output that is a
    call of a declared tool the streaming path yields the whole text in
    increments, while the single-shot path produces no text at all. *)
Lemma single_shot_tool_call_has_no_text :
  exists r rs,
    generateContent Examples.generator Examples.backend Examples.request_system_tools
      = Ok r
    /\ generateContentStreamInternal Examples.generator Examples.backend
         Examples.request_system_tools = Ok rs
    /\ streamText rs = Examples.text_fenced_call
    /\ responseTexts r = []
    /\ streamText rs <> concat (responseTexts r).
Proof.
  eexists _, _. split; [vm_compute; reflexivity|]. split; [vm_compute; reflexivity|].
  split; [vm_compute; reflexivity|]. split; [vm_compute; reflexivity|].
  vm_compute. discriminate.
Qed.

Lemma frameLines_app (a b : list jsstring) :
  frameLines (a ++ b) = frameLines a ++ frameLines b.
Proof. apply flat_map_app. Qed.

(** C4, as the code has it: when the chunks before the final one carry no
    finish reason and the final one carries a non-empty one, the loop yields
    text increments only, which hold the whole accumulated text, and after
    them one function call when tools are declared and the extractor finds a
    valid call in the accumulated text, and nothing when it finds none. *)
Theorem stream_override_after_text
    (tools : option (list Tool)) (datas : list jsstring)
    (chunks init : list OllamaStreamChunk) (final : OllamaStreamChunk)
    (reads : list jsstring) (reason : jsstring) :
  Forall2 frameOf datas chunks ->
  concat reads = sse_stream datas ->
  chunks = init ++ [final] ->
  Forall (fun ch => chunk_finish_reason ch = None) init ->
  chunk_finish_reason final = Some reason ->
  reason <> [] ->
  let events := readLoop parseToolCall tools [] [] reads in
  let found := if hasTools tools
               then parseToolCall (chunksText chunks) tools else None in
  exists texts,
    Forall textOnly texts
    /\ streamText texts = chunksText chunks
    /\ events = texts ++ match found with
                         | Some call => [functionCallEvent call]
                         | None => []
                         end
    /\ flat_map responseCalls events = match found with
                                       | Some call => [call]
                                       | None => []
                                       end.
Proof.
  intros Hf Hr -> Hinit Hfin Hne. simpl.
  rewrite (readLoop_stream parseToolCall tools reads datas Hr)
    by (eapply frameOf_no_newline; eauto).
  apply Forall2_app_inv_r in Hf as (di & df & Hi & Hl & ->).
  inversion Hl as [|d ch ds chs Hd Hnil]; subst. inversion Hnil; subst.
  rewrite frameLines_app, onLines_app.
  destruct (onLines_frames parseToolCall tools di init Hi [])
    as (ev1 & He1 & Hs1 & Ht1).
  rewrite He1. change ([] ++ chunksText init) with (chunksText init).
  change (frameLines [d]) with [str "data: " ++ d; []].
  cbn [onLines].
  destruct (onLine_frame parseToolCall tools (chunksText init) d final Hd)
    as (y & Hy & Hty & Hsy).
  rewrite Hy, onLine_blank. cbn [snd].
  rewrite Hfin. unfold overrideOf.
  destruct reason as [|c reason]; [contradiction|].
  assert (Hacc : chunksText init ++ chunkText final = chunksText (init ++ [final])).
  { unfold chunksText. rewrite map_app, concat_app. simpl. now rewrite app_nil_r. }
  rewrite Hacc.
  exists (ev1 ++ y).
  assert (Htexts : Forall textOnly (ev1 ++ y))
    by (apply Forall_app; split; auto).
  split; [exact Htexts|]. split; [|split].
  - rewrite streamText_app, Hs1, Hsy. exact Hacc.
  - rewrite !app_nil_r. now rewrite app_assoc.
  - rewrite !app_nil_r, app_assoc, flat_map_app, (textOnly_no_calls _ Htexts).
    destruct (if hasTools tools
              then parseToolCall (chunksText (init ++ [final])) tools else None);
      reflexivity.
Qed.

Lemma stream_override_witness :
  flat_map responseCalls
    (readLoop parseToolCall Examples.tools_list_files [] [] Examples.backend_reads)
  = [Examples.call_list_files].
Proof.
  destruct (stream_override_after_text Examples.tools_list_files
              [Examples.frame1; Examples.frame2] [Examples.chunk1; Examples.chunk2]
              [Examples.chunk1] Examples.chunk2 Examples.backend_reads (str "stop"))
    as (texts & _ & _ & _ & H).
  - exact examples_frames.
  - vm_compute. reflexivity.
  - reflexivity.
  - repeat constructor.
  - reflexivity.
  - discriminate.
  - exact H.
Defined.

(** C4, as the specification has it, fails.  First stream: the final chunk
    carries a finish reason that is not null, the empty string, and the
    accumulated text holds a call of the declared [list_files]; no function
    call is yielded.  Second stream: two chunks carry the finish reason
    [stop]; two function calls are yielded, the first of them before the
    last text increment. *)
Lemma finish_reason_override_count :
  (frameOf Examples.frame_empty_reason Examples.chunk_empty_reason
   /\ chunk_finish_reason Examples.chunk_empty_reason = Some []
   /\ parseToolCall (chunksText [Examples.chunk_empty_reason])
                    Examples.tools_list_files
      = Some (mkFunctionCall (Some (VStr (str "list_files"))) (Some (VObj [])))
   /\ flat_map responseCalls
        (readLoop parseToolCall Examples.tools_list_files [] []
                  [sse_stream [Examples.frame_empty_reason]]) = [])
  /\
  (Forall2 frameOf [Examples.frame_stop_call; Examples.frame_stop_space]
                   [Examples.chunk_stop_call; Examples.chunk_stop_space]
   /\ List.map (fun r => (responseTexts r, List.length (responseCalls r)))
        (readLoop parseToolCall Examples.tools_list_files [] []
           [sse_stream [Examples.frame_stop_call; Examples.frame_stop_space]])
      = [([Examples.text_bare_call], 0%nat); ([], 1%nat);
         ([str " "], 0%nat); ([], 1%nat)]).
Proof.
  split.
  - split; [|split; [reflexivity|split; vm_compute; reflexivity]].
    split.
    + intros H. vm_compute in H. intuition discriminate.
    + eexists. split; [vm_compute; reflexivity|].
      eexists _, _, _. repeat split.
  - split; [|vm_compute; reflexivity].
    repeat apply Forall2_cons; try apply Forall2_nil; split.
    + intros H. vm_compute in H. intuition discriminate.
    + eexists. split; [vm_compute; reflexivity|].
      eexists _, _, _. repeat split.
    + intros H. vm_compute in H. intuition discriminate.
    + eexists. split; [vm_compute; reflexivity|].
      eexists _, _, _. repeat split.
Qed.

(** ** The fuel of [JSON.parse] *)

Lemma skip_ws_length (s : jsstring) : (List.length (skip_ws s) <= List.length s)%nat.
Proof.
  induction s as [|c s IH]; [simpl; lia|]. cbn [skip_ws].
  destruct (is_json_space c); simpl; lia.
Qed.

Lemma parse_string_body_length (s t rest : jsstring) :
  parse_string_body s = Some (t, rest) -> (List.length rest < List.length s)%nat.
Proof.
  assert (H : forall n s t rest, (List.length s <= n)%nat ->
                parse_string_body s = Some (t, rest) ->
                (List.length rest < List.length s)%nat).
  { clear. induction n as [|n IH]; intros s t rest Hn.
    - destruct s; [discriminate | simpl in Hn; lia].
    - destruct s as [|c r]; [discriminate|]. cbn [parse_string_body].
      simpl in Hn.
      assert (Hrec : forall u x t rest, (List.length x <= n)%nat ->
                match parse_string_body x with
                | Some (t0, rest0) => Some (u :: t0, rest0)
                | None => None
                end = Some (t, rest) -> (List.length rest < List.length x)%nat).
      { intros u x t0 rest0 Hx. destruct (parse_string_body x) as [[t1 r1]|] eqn:E;
          [|discriminate]. intros [= <- <-]. eapply IH; eauto. }
      destruct (c =? DQUOTE); [intros [= <- <-]; simpl; lia|].
      destruct (c =? BACKSLASH).
      + destruct r as [|e r1]; [discriminate|]. simpl in Hn.
        repeat match goal with
               | |- context [if ?b then _ else _] =>
                   destruct b;
                   [ try (intros H; apply Hrec in H; [simpl; lia | lia]) | ]
               end; try discriminate.
        destruct r1 as [|h1 [|h2 [|h3 [|h4 r2]]]]; try discriminate.
        destruct (hex4_value h1 h2 h3 h4); [|discriminate].
        intros H. apply Hrec in H; simpl in *; lia.
      + destruct (c <? 32); [discriminate|].
        intros H. apply Hrec in H; simpl; lia. }
  apply (H (List.length s)). lia.
Qed.

Lemma take_digits_length (s : jsstring) :
  (List.length (snd (take_digits s)) <= List.length s)%nat.
Proof.
  induction s as [|c s IH]; [simpl; lia|]. cbn [take_digits].
  destruct (is_digit c); [|simpl; lia].
  destruct (take_digits s) as [ds rest]. simpl in *. lia.
Qed.

Lemma parse_fraction_length (s : jsstring) f rest :
  parse_fraction s = Some (f, rest) -> (List.length rest <= List.length s)%nat.
Proof.
  unfold parse_fraction. destruct s as [|c r]; [intros [= <- <-]; lia|].
  destruct (c =? 46); [|intros [= <- <-]; lia].
  pose proof (take_digits_length r) as H.
  destruct (take_digits r) as [[|d ds] rest']; [discriminate|].
  intros [= <- <-]. simpl in *. lia.
Qed.

Lemma parse_exponent_length (s : jsstring) x rest :
  parse_exponent s = Some (x, rest) -> (List.length rest <= List.length s)%nat.
Proof.
  unfold parse_exponent. destruct s as [|c r]; [intros [= <- <-]; lia|].
  destruct ((c =? 101) || (c =? 69)); [|intros [= <- <-]; lia].
  destruct r as [|p r'].
  - simpl. discriminate.
  - destruct (p =? 43); [|destruct (p =? 45)];
      match goal with
      | |- context [take_digits ?z] =>
          pose proof (take_digits_length z) as Hz;
          destruct (take_digits z) as [[|d ds] rest0]; [discriminate|];
          intros [= <- <-]; simpl in *; lia
      end.
Qed.

Lemma parse_number_from_length (neg : bool) (s : jsstring) n rest :
  parse_number_from neg s = Some (n, rest) -> (List.length rest < List.length s)%nat.
Proof.
  unfold parse_number_from. destruct s as [|c r]; [discriminate|].
  assert (H : forall i s2,
             (List.length s2 < List.length (c :: r))%nat ->
             match parse_fraction s2 with
             | Some (f, s3) =>
                 match parse_exponent s3 with
                 | Some (x, s4) => Some (make_number neg i f x, s4)
                 | None => None
                 end
             | None => None
             end = Some (n, rest) -> (List.length rest < List.length (c :: r))%nat).
  { intros i s2 Hs2.
    destruct (parse_fraction s2) as [[f s3]|] eqn:Ef; [|discriminate].
    destruct (parse_exponent s3) as [[x s4]|] eqn:Ee; [|discriminate].
    intros [= <- <-]. apply parse_fraction_length in Ef.
    apply parse_exponent_length in Ee. lia. }
  destruct (c =? 48); [apply H; simpl; lia|].
  destruct (is_digit c) eqn:Ed; [|discriminate].
  pose proof (take_digits_length r) as Hr.
  cbn [take_digits]. rewrite Ed.
  destruct (take_digits r) as [ds rest0]. apply H. simpl in *. lia.
Qed.

Lemma parse_number_length (s : jsstring) n rest :
  parse_number s = Some (n, rest) -> (List.length rest < List.length s)%nat.
Proof.
  unfold parse_number. destruct s as [|c r]; [discriminate|].
  destruct (c =? 45); intros H; apply parse_number_from_length in H; simpl in *; lia.
Qed.

Lemma parse_literal_length (word : jsstring) (v : value) (s : jsstring) v' rest :
  word <> [] ->
  parse_literal word v s = Some (v', rest) -> (List.length rest < List.length s)%nat.
Proof.
  intros Hw. unfold parse_literal.
  destruct (startsWith word s) eqn:E; [|discriminate].
  intros [= <- <-]. apply startsWith_iff in E as [r ->].
  rewrite skipn_app, Nat.sub_diag, skipn_all. cbn [app skipn].
  rewrite length_app. destruct word; [contradiction | simpl; lia].
Qed.

Lemma fuel_bounded_all (f : nat) :
  fuel_bounded (fun f s (_ : unit) => parse_value f s) f
  /\ fuel_bounded parse_elements f
  /\ fuel_bounded parse_members f.
Proof.
  induction f as [|f (IHv & IHe & IHm)].
  { repeat split; intros; discriminate. }
  split; [|split]; intros s a v rest H.
  - cbn [parse_value] in H.
    pose proof (skip_ws_length s) as Hws.
    destruct (skip_ws s) as [|c t] eqn:Es; [discriminate|]. cbn [List.length] in Hws.
    assert (Hfree : forall res,
              res = Some (v, rest) -> (List.length rest < List.length (c :: t))%nat ->
              (forall f'', parse_value (S f'') s = res) ->
              (List.length rest < List.length s)%nat /\
              forall f', (List.length s - List.length rest <= f')%nat ->
                         parse_value f' s = Some (v, rest)).
    { intros res -> Hlen Hres. split; [simpl in Hlen; lia|].
      intros [|f'] Hf'; [simpl in Hlen; lia | apply Hres]. }
    destruct (c =? LBRACE) eqn:E1.
    { pose proof (skip_ws_length t) as Hwt.
      destruct (skip_ws t) as [|c' t'] eqn:Et; [discriminate|].
      cbn [List.length] in Hwt.
      destruct (c' =? RBRACE) eqn:E2.
      - apply (Hfree (Some (VObj [], t'))); [congruence | injection H as _ <-; simpl; lia|].
        intros f''. cbn [parse_value]. now rewrite Es, E1, Et, E2.
      - destruct (IHm t [] v rest H) as [Hlen Hfuel]. split; [lia|].
        intros [|f'] Hf'; [lia|]. cbn [parse_value]. rewrite Es, E1, Et, E2.
        apply Hfuel. lia. }
    destruct (c =? 91) eqn:E2.
    { pose proof (skip_ws_length t) as Hwt.
      destruct (skip_ws t) as [|c' t'] eqn:Et; [discriminate|].
      cbn [List.length] in Hwt.
      destruct (c' =? 93) eqn:E3.
      - apply (Hfree (Some (VArr [], t'))); [congruence | injection H as _ <-; simpl; lia|].
        intros f''. cbn [parse_value]. now rewrite Es, E1, E2, Et, E3.
      - destruct (IHe t [] v rest H) as [Hlen Hfuel]. split; [lia|].
        intros [|f'] Hf'; [lia|]. cbn [parse_value]. rewrite Es, E1, E2, Et, E3.
        apply Hfuel. lia. }
    destruct (c =? DQUOTE) eqn:E3.
    { destruct (parse_string_body t) as [[str rest0]|] eqn:Ep; [|discriminate].
      apply (Hfree (Some (VStr str, rest0))); [congruence | |].
      - injection H as _ <-. apply parse_string_body_length in Ep. simpl. lia.
      - intros f''. cbn [parse_value]. now rewrite Es, E1, E2, E3, Ep. }
    destruct (c =? 116) eqn:E4.
    { apply (Hfree _ H).
      - apply parse_literal_length in H; [exact H | discriminate].
      - intros f''. cbn [parse_value]. now rewrite Es, E1, E2, E3, E4. }
    destruct (c =? 102) eqn:E5.
    { apply (Hfree _ H).
      - apply parse_literal_length in H; [exact H | discriminate].
      - intros f''. cbn [parse_value]. now rewrite Es, E1, E2, E3, E4, E5. }
    destruct (c =? 110) eqn:E6.
    { apply (Hfree _ H).
      - apply parse_literal_length in H; [exact H | discriminate].
      - intros f''. cbn [parse_value]. now rewrite Es, E1, E2, E3, E4, E5, E6. }
    destruct (parse_number (c :: t)) as [[n rest0]|] eqn:Ep; [|discriminate].
    apply (Hfree (Some (VNum n, rest0))); [congruence | |].
    + injection H as _ <-. now apply parse_number_length in Ep.
    + intros f''. cbn [parse_value]. now rewrite Es, E1, E2, E3, E4, E5, E6, Ep.
  - cbn [parse_elements] in H.
    destruct (parse_value f s) as [[x r1]|] eqn:Ev; [|discriminate].
    destruct (IHv s tt x r1 Ev) as [Hl1 Hf1].
    pose proof (skip_ws_length r1) as Hws.
    destruct (skip_ws r1) as [|c r2] eqn:Es; [discriminate|]. cbn [List.length] in Hws.
    destruct (c =? 44) eqn:E1.
    + destruct (IHe r2 (a ++ [x]) v rest H) as [Hl2 Hf2]. split; [lia|].
      intros [|f'] Hf'; [lia|]. cbn [parse_elements].
      rewrite (Hf1 f') by lia. rewrite Es, E1. apply Hf2. lia.
    + destruct (c =? 93) eqn:E2; [|discriminate]. injection H as <- <-.
      split; [lia|].
      intros [|f'] Hf'; [lia|]. cbn [parse_elements].
      rewrite (Hf1 f') by lia. now rewrite Es, E1, E2.
  - cbn [parse_members] in H.
    pose proof (skip_ws_length s) as Hws.
    destruct (skip_ws s) as [|c r] eqn:Es; [discriminate|]. cbn [List.length] in Hws.
    destruct (c =? DQUOTE) eqn:E1; [|discriminate].
    destruct (parse_string_body r) as [[k r1]|] eqn:Ek; [|discriminate].
    pose proof (parse_string_body_length _ _ _ Ek) as Hk.
    pose proof (skip_ws_length r1) as Hws1.
    destruct (skip_ws r1) as [|c1 r2] eqn:Es1; [discriminate|].
    cbn [List.length] in Hws1.
    destruct (c1 =? 58) eqn:E2; [|discriminate].
    destruct (parse_value f r2) as [[x r3]|] eqn:Ev; [|discriminate].
    destruct (IHv r2 tt x r3 Ev) as [Hl1 Hf1].
    pose proof (skip_ws_length r3) as Hws3.
    destruct (skip_ws r3) as [|c3 r4] eqn:Es3; [discriminate|].
    cbn [List.length] in Hws3.
    destruct (c3 =? 44) eqn:E3.
    + destruct (IHm r4 (obj_set a k x) v rest H) as [Hl2 Hf2]. split; [lia|].
      intros [|f'] Hf'; [lia|]. cbn [parse_members].
      rewrite Es, E1, Ek, Es1, E2, (Hf1 f') by lia. rewrite Es3, E3.
      apply Hf2. lia.
    + destruct (c3 =? RBRACE) eqn:E4; [|discriminate]. injection H as <- <-.
      split; [lia|].
      intros [|f'] Hf'; [lia|]. cbn [parse_members].
      rewrite Es, E1, Ek, Es1, E2, (Hf1 f') by lia. now rewrite Es3, E3, E4.
Qed.

(** Whatever some amount of fuel parses, [JSON.parse] parses with the fuel
    it takes: it rejects a text only for its syntax. *)
Theorem parse_fuel_adequate (f : nat) (s : jsstring) (v : value) (rest : jsstring) :
  parse_value f s = Some (v, rest) ->
  parse_value (S (List.length s)) s = Some (v, rest).
Proof.
  intros H. destruct (fuel_bounded_all f) as (Hv & _ & _).
  destruct (Hv s tt v rest H) as [_ Hf]. apply Hf. lia.
Qed.

(** ** JSON text round trip *)

(** Induction on values, with the elements of arrays and objects. *)
Lemma value_induction (P : value -> Prop) :
  P VNull -> (forall b, P (VBool b)) -> (forall n, P (VNum n)) ->
  (forall s, P (VStr s)) ->
  (forall l, Forall P l -> P (VArr l)) ->
  (forall l, Forall (fun kv => P (snd kv)) l -> P (VObj l)) ->
  forall v, P v.
Proof.
  intros Hnull Hbool Hnum Hstr Harr Hobj.
  fix IH 1. intros [| b | n | s | l | l].
  - exact Hnull.
  - apply Hbool.
  - apply Hnum.
  - apply Hstr.
  - apply Harr. induction l as [|x l IHl]; constructor; [apply IH | exact IHl].
  - apply Hobj. induction l as [|[k x] l IHl]; constructor; [apply IH | exact IHl].
Qed.

Ltac unfold_units :=
  unfold DQUOTE, BACKSLASH, NEWLINE, BACKTICK, LBRACE, RBRACE in *.

(** Decide the comparisons of a code unit with constants by arithmetic. *)
Ltac decide_tests :=
  unfold_units;
  repeat match goal with
    | |- context [N.eqb ?a ?b] =>
        first [ rewrite (proj2 (N.eqb_neq a b)) by lia
              | rewrite (proj2 (N.eqb_eq a b)) by lia ]
    | |- context [N.ltb ?a ?b] =>
        first [ rewrite (proj2 (N.ltb_ge a b)) by lia
              | rewrite (proj2 (N.ltb_lt a b)) by lia ]
    | |- context [N.leb ?a ?b] =>
        first [ rewrite (proj2 (N.leb_gt a b)) by lia
              | rewrite (proj2 (N.leb_le a b)) by lia ]
    end.

Lemma parse_string_body_raw (c : N) (x : jsstring) :
  c <> 34 -> c <> 92 -> 32 <= c ->
  parse_string_body (c :: x) =
  match parse_string_body x with
  | Some (t, rest) => Some (c :: t, rest)
  | None => None
  end.
Proof.
  intros H1 H2 H3. cbn [parse_string_body]. decide_tests. reflexivity.
Qed.

Lemma parse_string_body_unicode (h1 h2 h3 h4 : N) (x : jsstring) :
  parse_string_body (92 :: 117 :: h1 :: h2 :: h3 :: h4 :: x) =
  match hex4_value h1 h2 h3 h4 with
  | Some u =>
      match parse_string_body x with
      | Some (t, rest) => Some (u :: t, rest)
      | None => None
      end
  | None => None
  end.
Proof. reflexivity. Qed.

Lemma hex_value_char (d : N) : d < 16 -> hex_value (hex_char d) = Some d.
Proof.
  intros H. unfold hex_value, hex_char.
  destruct (N.ltb_spec d 10) as [Hd|Hd]; decide_tests; cbn [andb orb]; f_equal; lia.
Qed.

Lemma hex4_round_trip (c : N) :
  c < 65536 ->
  hex4_value (hex_char ((c / 4096) mod 16)) (hex_char ((c / 256) mod 16))
             (hex_char ((c / 16) mod 16)) (hex_char (c mod 16)) = Some c.
Proof.
  intros H. unfold hex4_value.
  rewrite !hex_value_char by (apply N.mod_lt; discriminate).
  f_equal.
  pose proof (N.div_mod' c 16) as E1.
  pose proof (N.div_mod' (c / 16) 16) as E2.
  pose proof (N.div_mod' (c / 256) 16) as E3.
  assert (E4 : c / 256 = c / 16 / 16) by (now rewrite N.Div0.div_div).
  assert (E5 : c / 4096 = c / 256 / 16) by (now rewrite N.Div0.div_div).
  assert (E6 : c / 4096 < 16)
    by (apply N.Div0.div_lt_upper_bound; lia).
  rewrite (N.mod_small (c / 4096) 16) by exact E6.
  rewrite <- E4 in E2.
  rewrite <- E5 in E3.
  set (a := c / 4096) in *. set (b := c / 256) in *. set (d := c / 16) in *.
  set (x := b mod 16) in *. set (y := d mod 16) in *. set (z := c mod 16) in *.
  lia.
Qed.

(** One code unit, escaped or not, reads back as itself. *)
Lemma parse_quote_unit (c : N) (x : jsstring) :
  c < 65536 ->
  parse_string_body (quote_unit c ++ x) =
  match parse_string_body x with
  | Some (t, rest) => Some (c :: t, rest)
  | None => None
  end.
Proof.
  intros H. unfold quote_unit.
  destruct (N.eqb_spec c 8) as [->|H8]; [reflexivity|].
  destruct (N.eqb_spec c 9) as [->|H9]; [reflexivity|].
  destruct (N.eqb_spec c 10) as [->|H10]; [reflexivity|].
  destruct (N.eqb_spec c 12) as [->|H12]; [reflexivity|].
  destruct (N.eqb_spec c 13) as [->|H13]; [reflexivity|].
  destruct (N.eqb_spec c DQUOTE) as [->|H34]; [reflexivity|].
  destruct (N.eqb_spec c BACKSLASH) as [->|H92]; [reflexivity|].
  destruct ((c <? 32) || is_high_surrogate c || is_low_surrogate c) eqn:E.
  - unfold unicode_escape, hex4, BACKSLASH. cbn [app].
    rewrite parse_string_body_unicode, hex4_round_trip by exact H. reflexivity.
  - apply orb_false_iff in E as [E _]. apply orb_false_iff in E as [E _].
    apply N.ltb_ge in E. cbn [app]. unfold_units.
    apply parse_string_body_raw; assumption.
Qed.

Lemma parse_string_body_surrogate (c : N) (x : jsstring) :
  is_high_surrogate c = true \/ is_low_surrogate c = true ->
  parse_string_body (c :: x) =
  match parse_string_body x with
  | Some (t, rest) => Some (c :: t, rest)
  | None => None
  end.
Proof.
  unfold is_high_surrogate, is_low_surrogate. intros H.
  apply parse_string_body_raw;
    destruct H as [H|H]; apply andb_true_iff in H as [H1 H2];
    apply N.leb_le in H1; lia.
Qed.

Lemma parse_quote_units_bounded (n : nat) : forall (s rest : jsstring),
  (List.length s <= n)%nat ->
  forallb unit_ok s = true ->
  parse_string_body (quote_units s ++ DQUOTE :: rest) = Some (s, rest).
Proof.
  induction n as [|n IH]; intros s rest Hlen Hok.
  - destruct s; [reflexivity | simpl in Hlen; lia].
  - destruct s as [|c t]; [reflexivity|].
    simpl in Hlen, Hok. apply andb_true_iff in Hok as [Hc Ht].
    apply N.ltb_lt in Hc. cbn [quote_units].
    assert (Hstep : parse_string_body ((quote_unit c ++ quote_units t) ++ DQUOTE :: rest)
                    = Some (c :: t, rest)).
    { rewrite <- app_assoc, parse_quote_unit by exact Hc.
      rewrite IH by (assumption || lia). reflexivity. }
    destruct (is_high_surrogate c) eqn:Eh; [|exact Hstep].
    destruct t as [|d t'].
    + rewrite app_nil_r in Hstep. exact Hstep.
    + destruct (is_low_surrogate d) eqn:El; [|exact Hstep].
      simpl in Hlen, Ht. apply andb_true_iff in Ht as [_ Ht'].
      cbn [app].
      rewrite parse_string_body_surrogate by (now left).
      rewrite parse_string_body_surrogate by (now right).
      rewrite IH by (assumption || lia). reflexivity.
Qed.

(** A quoted string reads back as the string. *)
Lemma parse_quote_units (s rest : jsstring) :
  forallb unit_ok s = true ->
  parse_string_body (quote_units s ++ DQUOTE :: rest) = Some (s, rest).
Proof. apply (parse_quote_units_bounded (List.length s)). lia. Qed.

(** *** Numbers *)

Lemma take_digits_stop (rest : jsstring) :
  number_stop rest = true -> take_digits rest = ([], rest).
Proof.
  destruct rest as [|c r]; [reflexivity|]. cbn [number_stop take_digits].
  intros H. apply negb_true_iff in H.
  apply orb_false_iff in H as [H _]. apply orb_false_iff in H as [H _].
  apply orb_false_iff in H as [H _]. now rewrite H.
Qed.

Lemma take_digits_chars (ds : list N) (rest : jsstring) :
  forallb (fun e => e <? 10) ds = true ->
  take_digits rest = ([], rest) ->
  take_digits (digit_chars ds ++ rest) = (ds, rest).
Proof.
  intros Hds Hrest. induction ds as [|d ds IH].
  - exact Hrest.
  - cbn [forallb] in Hds. apply andb_true_iff in Hds as [Hd Hds].
    apply N.ltb_lt in Hd.
    cbn [digit_chars List.map app take_digits].
    fold (digit_chars ds). rewrite (IH Hds). unfold is_digit.
    decide_tests. cbn [andb]. f_equal. f_equal. lia.
Qed.

Lemma parse_fraction_stop (rest : jsstring) :
  number_stop rest = true -> parse_fraction rest = Some ([], rest).
Proof.
  destruct rest as [|c r]; [reflexivity|]. cbn [number_stop parse_fraction].
  intros H. apply negb_true_iff in H.
  apply orb_false_iff in H as [H _]. apply orb_false_iff in H as [H _].
  apply orb_false_iff in H as [_ H]. now rewrite H.
Qed.

Lemma parse_exponent_stop (rest : jsstring) :
  number_stop rest = true -> parse_exponent rest = Some (0%Z, rest).
Proof.
  destruct rest as [|c r]; [reflexivity|]. cbn [number_stop parse_exponent].
  intros H. apply negb_true_iff in H.
  apply orb_false_iff in H as [H H69]. apply orb_false_iff in H as [_ H101].
  now rewrite H101, H69.
Qed.

(** A fraction: the point and its digits. *)
Lemma parse_fraction_digits (d : N) (ds : list N) (rest : jsstring) :
  forallb (fun e => e <? 10) (d :: ds) = true ->
  take_digits rest = ([], rest) ->
  parse_fraction (46 :: digit_chars (d :: ds) ++ rest) = Some (d :: ds, rest).
Proof.
  intros Hds Hrest. unfold parse_fraction. rewrite N.eqb_refl.
  now rewrite take_digits_chars.
Qed.

Lemma strip_leading_zeros_repeat (m : nat) (x : list N) :
  strip_leading_zeros (repeat 0 m ++ x) = strip_leading_zeros x.
Proof. induction m as [|m IH]; [reflexivity | exact IH]. Qed.

Lemma strip_leading_zeros_head (d : N) (ds : list N) :
  d <> 0 -> strip_leading_zeros (d :: ds) = d :: ds.
Proof. intros H. cbn [strip_leading_zeros]. apply N.eqb_neq in H. now rewrite H. Qed.

Lemma rev_repeat_zero (m : nat) : rev (repeat 0 m) = repeat 0 m.
Proof.
  induction m as [|m IH]; [reflexivity|]. simpl. rewrite IH.
  clear IH. induction m as [|m IH]; [reflexivity|]. simpl. now rewrite IH.
Qed.

Lemma strip_trailing_zeros_tail (ds : list N) (m : nat) :
  ds <> [] -> last ds 0 <> 0 ->
  strip_trailing_zeros (ds ++ repeat 0 m) = ds.
Proof.
  intros Hne Hlast. unfold strip_trailing_zeros.
  rewrite rev_app_distr, rev_repeat_zero, strip_leading_zeros_repeat.
  rewrite (app_removelast_last 0 Hne) at 1.
  rewrite rev_app_distr. cbn [rev app strip_leading_zeros].
  apply N.eqb_neq in Hlast. rewrite Hlast.
  change (last ds 0 :: rev (removelast ds)) with (rev [last ds 0] ++ rev (removelast ds)).
  rewrite <- rev_app_distr, rev_involutive. symmetry.
  now apply app_removelast_last.
Qed.

Lemma strip_trailing_zeros_none (ds : list N) :
  ds <> [] -> last ds 0 <> 0 -> strip_trailing_zeros ds = ds.
Proof.
  intros Hne Hlast. rewrite <- (app_nil_r ds) at 1.
  now apply (strip_trailing_zeros_tail ds 0).
Qed.

(** The number that integer digits [i], fraction digits [f] and exponent
    [x] denote, when [i ++ f] is [lead] zeros, then the significant digits
    [d :: ds], then [trail] zeros. *)
Lemma make_number_digits (neg : bool) (i f : list N) (x : Z)
    (lead trail : nat) (d : N) (ds : list N) (n : Z) :
  i ++ f = repeat 0 lead ++ (d :: ds) ++ repeat 0 trail ->
  d <> 0 -> last (d :: ds) 0 <> 0 ->
  (Z.of_nat (List.length i) + x - Z.of_nat lead = n)%Z ->
  underflows (d :: ds) n = false ->
  make_number neg i f x = mkNumber neg (d :: ds) n.
Proof.
  intros Hall Hd Hlast Hn Hu. unfold make_number. rewrite Hall.
  rewrite strip_leading_zeros_repeat.
  change ((d :: ds) ++ repeat 0 trail) with (d :: (ds ++ repeat 0 trail)).
  rewrite strip_leading_zeros_head by exact Hd.
  change (d :: (ds ++ repeat 0 trail)) with ((d :: ds) ++ repeat 0 trail).
  rewrite strip_trailing_zeros_tail by (assumption || discriminate).
  replace (List.length (repeat 0%N lead ++ (d :: ds) ++ repeat 0%N trail) -
           List.length ((d :: ds) ++ repeat 0%N trail))%nat with lead
    by (rewrite !length_app, !repeat_length; lia).
  rewrite Hn, Hu. reflexivity.
Qed.

Lemma digit_chars_app (a b : list N) :
  digit_chars (a ++ b) = digit_chars a ++ digit_chars b.
Proof. apply map_app. Qed.

Lemma digit_chars_zeros (m : nat) : digit_chars (repeat 0 m) = zeros m.
Proof. induction m as [|m IH]; [reflexivity|]. simpl. now rewrite IH. Qed.

Lemma forallb_app_digits (a b : list N) :
  forallb (fun e => e <? 10) a = true -> forallb (fun e => e <? 10) b = true ->
  forallb (fun e => e <? 10) (a ++ b) = true.
Proof. intros Ha Hb. now rewrite forallb_app, Ha, Hb. Qed.

Lemma forallb_zeros (m : nat) : forallb (fun e => e <? 10) (repeat 0 m) = true.
Proof. induction m as [|m IH]; [reflexivity | exact IH]. Qed.

(** The decimal digits of a natural number. *)
Lemma digits_value_app (a : list N) (r acc : N) :
  digits_value (a ++ [r]) acc = 10 * digits_value a acc + r.
Proof.
  revert acc. induction a as [|x a IH]; intros acc; [reflexivity|].
  cbn [app digits_value]. apply IH.
Qed.

Lemma N_digits_fuel_acc (f : nat) : forall n acc,
  N_digits_fuel f n acc = N_digits_fuel f n [] ++ acc.
Proof.
  induction f as [|f IH]; intros n acc; [reflexivity|].
  cbn [N_digits_fuel]. destruct (n / 10 =? 0); [reflexivity|].
  rewrite (IH (n / 10) (n mod 10 :: acc)), (IH (n / 10) [n mod 10]).
  now rewrite <- app_assoc.
Qed.

Lemma N_digits_fuel_step (f : nat) (n : N) (acc : list N) :
  N_digits_fuel (S f) n acc =
  if n / 10 =? 0 then n mod 10 :: acc else N_digits_fuel f (n / 10) (n mod 10 :: acc).
Proof. reflexivity. Qed.

Lemma N_digits_fuel_spec (f : nat) : forall n,
  n < 2 ^ N.of_nat (S f) ->
  digits_value (N_digits_fuel (S f) n []) 0 = n
  /\ forallb (fun e => e <? 10) (N_digits_fuel (S f) n []) = true
  /\ N_digits_fuel (S f) n [] <> [].
Proof.
  induction f as [|f IH]; intros n Hn;
    assert (Hmod : n mod 10 < 10) by (apply N.mod_lt; discriminate);
    pose proof (N.div_mod' n 10) as Hdm;
    rewrite N_digits_fuel_step; destruct (N.eqb_spec (n / 10) 0) as [Hz|Hz].
  - cbn [digits_value forallb]. repeat split.
    + set (q := n / 10) in *. set (r := n mod 10) in *. lia.
    + apply N.ltb_lt in Hmod. now rewrite Hmod.
    + discriminate.
  - exfalso. apply Hz. apply N.div_small. change (2 ^ N.of_nat 1) with 2 in Hn. lia.
  - cbn [digits_value forallb]. repeat split.
    + set (q := n / 10) in *. set (r := n mod 10) in *. lia.
    + apply N.ltb_lt in Hmod. now rewrite Hmod.
    + discriminate.
  - rewrite N_digits_fuel_acc.
    assert (Hq : n / 10 < 2 ^ N.of_nat (S f)).
    { apply N.Div0.div_lt_upper_bound.
      rewrite (Nat2N.inj_succ (S f)), N.pow_succ_r' in Hn. lia. }
    destruct (IH (n / 10) Hq) as (Hv & Hd & Hne).
    repeat split.
    + rewrite digits_value_app, Hv.
      set (q := n / 10) in *. set (r := n mod 10) in *. lia.
    + rewrite forallb_app, Hd. cbn [forallb].
      apply N.ltb_lt in Hmod. now rewrite Hmod.
    + destruct (N_digits_fuel (S f) (n / 10) []); [contradiction | discriminate].
Qed.

Lemma N_digits_spec (n : N) :
  digits_value (N_digits n) 0 = n
  /\ forallb (fun e => e <? 10) (N_digits n) = true
  /\ N_digits n <> [].
Proof.
  apply N_digits_fuel_spec.
  rewrite Nat2N.inj_succ, N2Nat.id.
  destruct (N.eq_dec n 0) as [->|Hn]; [reflexivity|].
  apply N.log2_spec. lia.
Qed.

(** The exponent part [e+x] or [e-x]. *)
Lemma parse_exponent_digits (e : Z) (rest : jsstring) :
  number_stop rest = true ->
  parse_exponent (101 :: (if (e <? 0)%Z then str "-" else str "+") ++
                  digit_chars (N_digits (Z.abs_N e)) ++ rest)
  = Some (e, rest).
Proof.
  intros Hrest. destruct (N_digits_spec (Z.abs_N e)) as (Hv & Hd & Hne).
  assert (Htake : take_digits (digit_chars (N_digits (Z.abs_N e)) ++ rest) =
                  (N_digits (Z.abs_N e), rest))
    by (apply take_digits_chars; [exact Hd | now apply take_digits_stop]).
  destruct (Z.ltb_spec e 0) as [He|He].
  - change (101 :: str "-" ++ ?t) with (101 :: 45 :: t).
    unfold parse_exponent. cbn [N.eqb Pos.eqb orb]. rewrite Htake.
    destruct (N_digits (Z.abs_N e)) as [|x xs]; [contradiction|].
    rewrite Hv. f_equal. f_equal. lia.
  - change (101 :: str "+" ++ ?t) with (101 :: 43 :: t).
    unfold parse_exponent. cbn [N.eqb Pos.eqb orb]. rewrite Htake.
    destruct (N_digits (Z.abs_N e)) as [|x xs]; [contradiction|].
    rewrite Hv. f_equal. f_equal. lia.
Qed.

Lemma number_ok_cases (neg : bool) (digits : list N) (n : Z) :
  number_ok (mkNumber neg digits n) = true ->
  (neg = false /\ digits = [] /\ n = 0%Z) \/
  exists d ds,
    digits = d :: ds
    /\ forallb (fun e => e <? 10) (d :: ds) = true
    /\ d <> 0 /\ last (d :: ds) 0 <> 0
    /\ underflows (d :: ds) n = false.
Proof.
  unfold number_ok. cbn [ndigits nneg npoint].
  destruct digits as [|d ds].
  - intros H. apply andb_true_iff in H as [H1 H2].
    apply negb_true_iff in H1. apply Z.eqb_eq in H2. now left.
  - intros H. right.
    apply andb_true_iff in H as [H Hu]. apply andb_true_iff in H as [H Hlast].
    apply andb_true_iff in H as [Hds Hd].
    apply negb_true_iff in Hd, Hlast, Hu. apply N.eqb_neq in Hd, Hlast.
    exists d, ds. repeat split; assumption.
Qed.

Lemma is_digit_char (d : N) : d < 10 -> is_digit (48 + d) = true.
Proof. intros H. unfold is_digit. decide_tests. reflexivity. Qed.

Lemma parse_number_from_digit (neg : bool) (d : N) (r : jsstring) :
  d <> 0 -> d < 10 ->
  parse_number_from neg ((48 + d) :: r) =
  match parse_fraction (snd (take_digits ((48 + d) :: r))) with
  | Some (f, s3) =>
      match parse_exponent s3 with
      | Some (x, s4) =>
          Some (make_number neg (fst (take_digits ((48 + d) :: r))) f x, s4)
      | None => None
      end
  | None => None
  end.
Proof.
  intros Hd Hd10. unfold parse_number_from.
  rewrite is_digit_char by exact Hd10. decide_tests.
  destruct (take_digits ((48 + d) :: r)) as [i s2]. reflexivity.
Qed.

Lemma forallb_firstn_skipn {A : Type} (p : A -> bool) (m : nat) (l : list A) :
  forallb p l = true ->
  forallb p (firstn m l) = true /\ forallb p (skipn m l) = true.
Proof.
  intros H. rewrite <- (firstn_skipn m l), forallb_app in H.
  now apply andb_true_iff in H.
Qed.

(** The text of a non-zero number without its sign reads back. *)
Lemma parse_decimal_text (neg : bool) (d : N) (ds : list N) (n : Z)
    (rest : jsstring) :
  forallb (fun e => e <? 10) (d :: ds) = true ->
  d <> 0 -> last (d :: ds) 0 <> 0 ->
  underflows (d :: ds) n = false ->
  number_stop rest = true ->
  parse_number_from neg (decimal_text d ds n ++ rest) =
  Some (mkNumber neg (d :: ds) n, rest).
Proof.
  intros Hds Hd Hlast Hu Hrest.
  assert (Hd10 : d < 10).
  { cbn [forallb] in Hds. apply andb_true_iff in Hds as [H _]. now apply N.ltb_lt. }
  assert (Hds' : forallb (fun e => e <? 10) ds = true).
  { cbn [forallb] in Hds. now apply andb_true_iff in Hds as [_ H]. }
  pose proof (take_digits_stop rest Hrest) as Hstop.
  unfold decimal_text. set (k := Z.of_nat (List.length (d :: ds))).
  destruct ((k <=? n)%Z && (n <=? 21)%Z) eqn:EA.
  { (* digits and zeros *)
    apply andb_true_iff in EA as [Hk _]. apply Z.leb_le in Hk.
    set (m := Z.to_nat (n - k)).
    rewrite <- app_assoc.
    change (digit_chars (d :: ds) ++ zeros m ++ rest)
      with ((48 + d) :: (digit_chars ds ++ zeros m ++ rest)).
    rewrite parse_number_from_digit by assumption.
    change ((48 + d) :: (digit_chars ds ++ zeros m ++ rest))
      with (digit_chars (d :: ds) ++ zeros m ++ rest).
    rewrite app_assoc, <- digit_chars_zeros, <- digit_chars_app.
    rewrite take_digits_chars
      by (try apply forallb_app_digits; auto using forallb_zeros).
    cbn [fst snd].
    rewrite parse_fraction_stop, parse_exponent_stop by exact Hrest.
    f_equal. f_equal.
    apply (make_number_digits neg _ [] 0 0 m d ds n); auto.
    - now rewrite app_nil_r.
    - rewrite length_app, repeat_length. unfold m, k in *. lia. }
  destruct ((0 <? n)%Z && (n <=? 21)%Z) eqn:EB.
  { (* digits, point, digits *)
    apply andb_true_iff in EB as [Hn0 Hn21].
    apply Z.ltb_lt in Hn0. apply Z.leb_le in Hn21.
    apply andb_false_iff in EA.
    assert (Hnk : (n < k)%Z).
    { destruct EA as [EA|EA]; apply Z.leb_gt in EA; lia. }
    set (m := Z.to_nat n).
    assert (Hm : (0 < m < List.length (d :: ds))%nat) by (unfold m, k in *; lia).
    destruct m as [|m'] eqn:Em; [lia|].
    assert (Hsplit : firstn (S m') (d :: ds) ++ skipn (S m') (d :: ds) = d :: ds)
      by apply firstn_skipn.
    destruct (forallb_firstn_skipn _ (S m') _ Hds) as [Hfd Hsd].
    destruct (skipn (S m') (d :: ds)) as [|y ys] eqn:Es.
    { apply (f_equal (@List.length N)) in Hsplit.
      rewrite app_nil_r, length_firstn in Hsplit. lia. }
    rewrite <- !app_assoc.
    change (firstn (S m') (d :: ds)) with (d :: firstn m' ds) in *.
    change (digit_chars (d :: firstn m' ds) ++ str "." ++ digit_chars (y :: ys) ++ rest)
      with ((48 + d) :: (digit_chars (firstn m' ds) ++
                         46 :: digit_chars (y :: ys) ++ rest)).
    rewrite parse_number_from_digit by assumption.
    change ((48 + d) :: (digit_chars (firstn m' ds) ++
                         46 :: digit_chars (y :: ys) ++ rest))
      with (digit_chars (d :: firstn m' ds) ++ 46 :: digit_chars (y :: ys) ++ rest).
    rewrite take_digits_chars by (exact Hfd || reflexivity).
    cbn [fst snd].
    rewrite parse_fraction_digits by assumption.
    rewrite parse_exponent_stop by exact Hrest.
    f_equal. f_equal.
    apply (make_number_digits neg _ _ 0 0 0 d ds n); auto.
    - rewrite Hsplit. cbn [repeat app]. now rewrite app_nil_r.
    - cbn [List.length]. rewrite length_firstn.
      cbn [List.length] in Hm. unfold m in *. lia. }
  destruct ((-6 <? n)%Z && (n <=? 0)%Z) eqn:EC.
  { (* zero, point, zeros, digits *)
    apply andb_true_iff in EC as [_ Hn0]. apply Z.leb_le in Hn0.
    set (m := Z.to_nat (- n)).
    rewrite <- !app_assoc.
    change (str "0." ++ zeros m ++ digit_chars (d :: ds) ++ rest)
      with (48 :: 46 :: (zeros m ++ digit_chars (d :: ds) ++ rest)).
    unfold parse_number_from. cbn [N.eqb Pos.eqb].
    assert (Hf : parse_fraction (46 :: zeros m ++ digit_chars (d :: ds) ++ rest) =
                 Some (repeat 0 m ++ d :: ds, rest)).
    { unfold parse_fraction. rewrite N.eqb_refl.
      rewrite app_assoc, <- digit_chars_zeros, <- digit_chars_app.
      rewrite take_digits_chars
        by (try apply forallb_app_digits; auto using forallb_zeros).
      destruct (repeat 0 m ++ d :: ds) eqn:E; [|reflexivity].
      destruct (repeat 0 m); discriminate. }
    rewrite Hf, parse_exponent_stop by exact Hrest.
    f_equal. f_equal.
    apply (make_number_digits neg [0] _ 0 (S m) 0 d ds n); auto.
    - cbn [repeat app]. now rewrite app_nil_r.
    - cbn [List.length]. unfold m. lia. }
  (* exponent notation *)
  set (e := (n - 1)%Z).
  assert (He : parse_exponent
                 (str "e" ++ (if (e <? 0)%Z then str "-" else str "+") ++
                  digit_chars (N_digits (Z.abs_N e)) ++ rest) = Some (e, rest))
    by exact (parse_exponent_digits e rest Hrest).
  assert (Hd1 : forallb (fun e => e <? 10) [d] = true).
  { cbn [forallb]. apply N.ltb_lt in Hd10. now rewrite Hd10. }
  destruct ds as [|y ys].
  - rewrite <- !app_assoc.
    change (digit_chars [d] ++ str "e" ++ ?t) with ((48 + d) :: (str "e" ++ t)).
    rewrite parse_number_from_digit by assumption.
    change ((48 + d) :: (str "e" ++ ?t)) with (digit_chars [d] ++ (str "e" ++ t)).
    rewrite take_digits_chars by (exact Hd1 || reflexivity).
    cbn [fst snd].
    change (parse_fraction (str "e" ++ ?t)) with (Some (@nil N, str "e" ++ t)).
    cbv beta iota. rewrite He.
    f_equal. f_equal.
    apply (make_number_digits neg [d] [] e 0 0 d [] n); auto.
    cbn [List.length]. unfold e. lia.
  - rewrite <- !app_assoc.
    change (digit_chars [d] ++ str "." ++ ?t) with ((48 + d) :: 46 :: t).
    rewrite parse_number_from_digit by assumption.
    change ((48 + d) :: 46 :: ?t) with (digit_chars [d] ++ 46 :: t).
    rewrite take_digits_chars by (exact Hd1 || reflexivity).
    cbn [fst snd].
    rewrite parse_fraction_digits by (exact Hds' || reflexivity).
    rewrite He.
    f_equal. f_equal.
    apply (make_number_digits neg [d] (y :: ys) e 0 0 d (y :: ys) n); auto.
    + cbn [repeat app]. now rewrite app_nil_r.
    + cbn [List.length]. unfold e. lia.
Qed.

Lemma decimal_text_head (d : N) (ds : list N) (n : Z) :
  d < 10 ->
  exists c r, decimal_text d ds n = c :: r /\ 48 <= c <= 57.
Proof.
  intros Hd. unfold decimal_text.
  destruct ((Z.of_nat (List.length (d :: ds)) <=? n)%Z && (n <=? 21)%Z).
  { exists (48 + d). eexists. split; [reflexivity | lia]. }
  destruct ((0 <? n)%Z && (n <=? 21)%Z) eqn:EB.
  { apply andb_true_iff in EB as [Hn _]. apply Z.ltb_lt in Hn.
    destruct (Z.to_nat n) as [|m] eqn:E; [lia|].
    exists (48 + d). eexists. split; [reflexivity | lia]. }
  destruct ((-6 <? n)%Z && (n <=? 0)%Z).
  { exists 48. eexists. split; [reflexivity | lia]. }
  destruct ds; exists (48 + d); eexists; (split; [reflexivity | lia]).
Qed.

Lemma digit_chars_free (ds : list N) :
  forallb (fun e => e <? 10) ds = true ->
  forallb free_unit (digit_chars ds) = true.
Proof.
  intros Hds. unfold digit_chars. apply forallb_forall. intros c Hc.
  apply in_map_iff in Hc as (e & <- & He).
  pose proof (proj1 (forallb_forall _ _) Hds e He) as H10.
  apply N.ltb_lt in H10. unfold free_unit. decide_tests. reflexivity.
Qed.

Lemma zeros_free (m : nat) : forallb free_unit (zeros m) = true.
Proof. induction m as [|m IH]; [reflexivity | exact IH]. Qed.

(** A printed number holds digits, a sign, a point and an exponent mark. *)
Lemma decimal_text_free (d : N) (ds : list N) (n : Z) :
  forallb (fun e => e <? 10) (d :: ds) = true ->
  forallb free_unit (decimal_text d ds n) = true.
Proof.
  intros Hds. unfold decimal_text.
  destruct (forallb_firstn_skipn _ (Z.to_nat n) _ Hds) as [Hf Hs].
  assert (Hd : forallb (fun e => e <? 10) [d] = true).
  { cbn [forallb] in Hds |- *. apply andb_true_iff in Hds as [-> _]. reflexivity. }
  assert (Hr : forallb (fun e => e <? 10) ds = true).
  { cbn [forallb] in Hds. now apply andb_true_iff in Hds as [_ H]. }
  assert (Hsign : forallb free_unit
                    (if (n - 1 <? 0)%Z then str "-" else str "+") = true)
    by now destruct (n - 1 <? 0)%Z.
  assert (Hexp : forallb free_unit
                   (digit_chars (N_digits (Z.abs_N (n - 1)))) = true)
    by (apply digit_chars_free, N_digits_spec).
  destruct ((Z.of_nat (List.length (d :: ds)) <=? n)%Z && (n <=? 21)%Z).
  { now rewrite forallb_app, digit_chars_free, zeros_free. }
  destruct ((0 <? n)%Z && (n <=? 21)%Z).
  { now rewrite !forallb_app, !digit_chars_free. }
  destruct ((-6 <? n)%Z && (n <=? 0)%Z).
  { now rewrite !forallb_app, zeros_free, digit_chars_free. }
  destruct ds.
  - now rewrite !forallb_app, Hsign, Hexp, digit_chars_free.
  - now rewrite !forallb_app, Hsign, Hexp, !digit_chars_free.
Qed.

Lemma parse_number_toString (x : number) (rest : jsstring) :
  number_ok x = true -> number_stop rest = true ->
  parse_number (Number_toString x ++ rest) = Some (x, rest).
Proof.
  destruct x as [neg digits n]. intros Hx Hrest.
  destruct (number_ok_cases neg digits n Hx)
    as [(-> & -> & ->)|(d & ds & -> & Hds & Hd & Hl & Hu)].
  - change (Number_toString (mkNumber false [] 0) ++ rest) with (48 :: rest).
    unfold parse_number, parse_number_from. cbn.
    now rewrite parse_fraction_stop, parse_exponent_stop by exact Hrest.
  - assert (Hd10 : d < 10).
    { cbn [forallb] in Hds. apply andb_true_iff in Hds as [H _]. now apply N.ltb_lt. }
    unfold Number_toString. cbn [ndigits nneg npoint].
    rewrite <- app_assoc.
    destruct neg.
    + change (str "-" ++ decimal_text d ds n ++ rest)
        with (45 :: (decimal_text d ds n ++ rest)).
      unfold parse_number. rewrite N.eqb_refl.
      now apply parse_decimal_text.
    + cbn [app]. unfold parse_number.
      destruct (decimal_text_head d ds n Hd10) as (c & r & E & Hc).
      rewrite <- (parse_decimal_text false d ds n rest Hds Hd Hl Hu Hrest).
      rewrite E. cbn [app]. decide_tests. reflexivity.
Qed.

(** The first unit of a printed number. *)
Lemma Number_toString_head (x : number) :
  number_ok x = true ->
  exists c r, Number_toString x = c :: r /\ (c = 45 \/ 48 <= c <= 57).
Proof.
  destruct x as [neg digits n]. intros Hx.
  destruct (number_ok_cases neg digits n Hx)
    as [(-> & -> & ->)|(d & ds & -> & Hds & Hd & Hl & Hu)].
  - exists 48, []. split; [reflexivity | right; lia].
  - assert (Hd10 : d < 10).
    { cbn [forallb] in Hds. apply andb_true_iff in Hds as [H _]. now apply N.ltb_lt. }
    unfold Number_toString. cbn [ndigits nneg npoint].
    destruct (decimal_text_head d ds n Hd10) as (c & r & E & Hc).
    rewrite E. destruct neg.
    + eexists _, _. split; [reflexivity | now left].
    + eexists _, _. split; [reflexivity | now right].
Qed.


(** *** Values *)

Lemma skip_ws_app (w x : jsstring) :
  all_ws w = true -> skip_ws (w ++ x) = skip_ws x.
Proof.
  induction w as [|c w IH]; [reflexivity|]. cbn [all_ws forallb app skip_ws].
  intros H. apply andb_true_iff in H as [-> H]. now apply IH.
Qed.

Lemma skip_ws_head (c : N) (x : jsstring) :
  is_json_space c = false -> skip_ws (c :: x) = c :: x.
Proof. intros H. cbn [skip_ws]. now rewrite H. Qed.

Lemma parse_value_ws (f : nat) (w x : jsstring) :
  all_ws w = true -> parse_value f (w ++ x) = parse_value f x.
Proof.
  intros H. destruct f; [reflexivity|]. cbn [parse_value].
  now rewrite skip_ws_app.
Qed.

Lemma parse_elements_ws (f : nat) (w x : jsstring) (acc : list value) :
  all_ws w = true -> parse_elements f (w ++ x) acc = parse_elements f x acc.
Proof.
  intros H. destruct f; [reflexivity|]. cbn [parse_elements].
  now rewrite parse_value_ws.
Qed.

Lemma parse_members_ws (f : nat) (w x : jsstring) acc :
  all_ws w = true -> parse_members f (w ++ x) acc = parse_members f x acc.
Proof.
  intros H. destruct f; [reflexivity|]. cbn [parse_members].
  now rewrite skip_ws_app.
Qed.


Lemma value_head_not_space (c : N) : value_head c -> is_json_space c = false.
Proof. unfold value_head, is_json_space. intros H. decide_tests. reflexivity. Qed.

Lemma wrap_head (o c : N) (gap stepback indent : jsstring) (partial : list jsstring) :
  exists r, wrap o c gap stepback indent partial = o :: r.
Proof. unfold wrap. destruct partial, gap; eexists; reflexivity. Qed.

Lemma serialize_head (gap indent : jsstring) (v : value) :
  well_formed v = true ->
  exists c r, SerializeJSONProperty gap indent v = c :: r /\ value_head c.
Proof.
  unfold value_head. destruct v as [| [|] | n | s | l | l]; intros H.
  - exists 110, (str "ull"). split; [reflexivity | lia].
  - exists 116, (str "rue"). split; [reflexivity | lia].
  - exists 102, (str "alse"). split; [reflexivity | lia].
  - destruct (Number_toString_head n H) as (c & r & E & Hc).
    exists c, r. split; [exact E | lia].
  - eexists _, _. split; [reflexivity | unfold DQUOTE; lia].
  - cbn [SerializeJSONProperty].
    destruct (wrap_head 91 93 gap indent (indent ++ gap)
                (List.map (SerializeJSONProperty gap (indent ++ gap)) l)) as [r ->].
    eexists _, _. split; [reflexivity | lia].
  - cbn [SerializeJSONProperty].
    match goal with |- context [wrap ?o ?c ?g ?s ?i ?p] =>
      destruct (wrap_head o c g s i p) as [r ->] end.
    eexists _, _. split; [reflexivity | unfold LBRACE; lia].
Qed.


Lemma wrap_items (o c : N) (gap stepback indent : jsstring) (partial : list jsstring) :
  partial <> [] ->
  wrap o c gap stepback indent partial =
  o :: before_item gap indent ++ join (44 :: before_item gap indent) partial ++
       before_item gap stepback ++ [c].
Proof.
  intros H. unfold wrap, before_item.
  destruct partial as [|p ps]; [contradiction|].
  destruct gap; reflexivity.
Qed.

Lemma all_ws_app (a b : jsstring) :
  all_ws a = true -> all_ws b = true -> all_ws (a ++ b) = true.
Proof. intros Ha Hb. unfold all_ws in *. now rewrite forallb_app, Ha, Hb. Qed.

Lemma all_ws_before_item (gap indent : jsstring) :
  all_ws indent = true -> all_ws (before_item gap indent) = true.
Proof. intros H. unfold before_item. destruct gap; [reflexivity | exact H]. Qed.

Lemma number_stop_ws (w : jsstring) (c : N) (rest : jsstring) :
  all_ws w = true -> c = 93 \/ c = 125 \/ c = 44 ->
  number_stop (w ++ c :: rest) = true.
Proof.
  intros Hw Hc. destruct w as [|x w]; cbn [app number_stop].
  - destruct Hc as [->|[->| ->]]; reflexivity.
  - cbn [all_ws forallb] in Hw. apply andb_true_iff in Hw as [Hx _].
    unfold is_json_space in Hx. unfold is_digit.
    repeat (apply orb_true_iff in Hx as [Hx|Hx]); apply N.eqb_eq in Hx; subst x;
      reflexivity.
Qed.

Lemma skip_ws_to (w : jsstring) (c : N) (rest : jsstring) :
  all_ws w = true -> is_json_space c = false ->
  skip_ws (w ++ c :: rest) = c :: rest.
Proof. intros Hw Hc. rewrite skip_ws_app by exact Hw. now apply skip_ws_head. Qed.

Lemma parse_value_number_head (f : nat) (c : N) (r : jsstring) :
  c = 45 \/ 48 <= c <= 57 ->
  parse_value (S f) (c :: r) =
  match parse_number (c :: r) with
  | Some (n, rest) => Some (VNum n, rest)
  | None => None
  end.
Proof.
  intros H. cbn [parse_value skip_ws]. unfold is_json_space.
  decide_tests. cbn [orb]. decide_tests. reflexivity.
Qed.

Lemma parse_value_array (f : nat) (r : jsstring) :
  (exists c r', skip_ws r = c :: r' /\ c <> 93) ->
  parse_value (S f) (91 :: r) = parse_elements f r [].
Proof.
  intros (c & r' & Hs & Hc). cbn [parse_value skip_ws].
  change (is_json_space 91) with false. cbv iota.
  change (91 =? LBRACE) with false. change (91 =? 91) with true. cbv iota.
  rewrite Hs. apply N.eqb_neq in Hc. now rewrite Hc.
Qed.

Lemma parse_value_object (f : nat) (r : jsstring) :
  (exists c r', skip_ws r = c :: r' /\ c <> 125) ->
  parse_value (S f) (123 :: r) = parse_members f r [].
Proof.
  intros (c & r' & Hs & Hc). cbn [parse_value skip_ws].
  change (is_json_space 123) with false. cbv iota.
  change (123 =? LBRACE) with true. cbv iota.
  rewrite Hs. unfold RBRACE. apply N.eqb_neq in Hc. now rewrite Hc.
Qed.

Lemma join_one (sep x : jsstring) : join sep [x] = x.
Proof. reflexivity. Qed.

Lemma join_more (sep x y : jsstring) (l : list jsstring) :
  join sep (x :: y :: l) = x ++ sep ++ join sep (y :: l).
Proof. reflexivity. Qed.

(** Where the first item of a list starts. *)
Lemma first_item_head (pre sep x : jsstring) (l : list jsstring) (tail : jsstring)
    (c : N) (r : jsstring) :
  all_ws pre = true -> x = c :: r -> is_json_space c = false ->
  exists r', skip_ws (pre ++ join sep (x :: l) ++ tail) = c :: r'.
Proof.
  intros Hpre -> Hc. rewrite skip_ws_app by exact Hpre.
  destruct l as [|y l]; [rewrite join_one | rewrite join_more];
    cbn [app]; rewrite skip_ws_head by exact Hc; eexists; reflexivity.
Qed.

Lemma insert_prop_append (k : jsstring) (v : value) (acc : list (jsstring * value)) :
  forallb (fun kv => negb (precedes k (fst kv))) acc = true ->
  insert_prop k v acc = acc ++ [(k, v)].
Proof.
  induction acc as [|[k' v'] acc IH]; [reflexivity|].
  cbn [forallb fst insert_prop app]. intros H.
  apply andb_true_iff in H as [H1 H2]. apply negb_true_iff in H1.
  now rewrite H1, IH.
Qed.

Lemma obj_set_append (acc : list (jsstring * value)) (k : jsstring) (v : value) :
  appendable acc k = true -> obj_set acc k v = acc ++ [(k, v)].
Proof.
  unfold appendable, obj_set. intros H. apply andb_true_iff in H as [H1 H2].
  apply negb_true_iff in H1. rewrite H1. now apply insert_prop_append.
Qed.

(** Bring appended texts into the form [c1 :: ... ++ x ++ y]. *)
Ltac right_assoc := repeat (progress (rewrite <- ?app_assoc; cbn [app])).

Section RoundTrip.

Variable gap : jsstring.
Hypothesis gap_ws : all_ws gap = true.


Lemma elements_read_back (l : list value) :
  Forall (fun x => well_formed x = true /\ reads_back gap x) l -> l <> [] ->
  forall pre post indent acc rest fuel,
    all_ws pre = true -> all_ws post = true -> all_ws indent = true ->
    (list_sum (List.map (fun x => S (vsize x)) l) <= fuel)%nat ->
    parse_elements fuel
      (pre ++ join (44 :: pre) (List.map (SerializeJSONProperty gap indent) l) ++
       post ++ 93 :: rest) acc
    = Some (VArr (acc ++ l), rest).
Proof.
  induction l as [|x l IH]; [contradiction|].
  intros Hall _ pre post indent acc rest fuel Hpre Hpost Hind Hfuel.
  inversion Hall as [|? ? [Hwf Hx] Hl]; subst.
  cbn [List.map list_sum] in Hfuel.
  destruct fuel as [|f]; [simpl in Hfuel; lia|].
  rewrite parse_elements_ws by exact Hpre.
  cbn [parse_elements].
  destruct l as [|y l'].
  - rewrite map_cons, join_one.
    rewrite (Hx indent (post ++ 93 :: rest) f Hind)
      by (try apply number_stop_ws; auto; simpl in Hfuel; lia).
    rewrite skip_ws_to by (auto; reflexivity). reflexivity.
  - rewrite map_cons, (map_cons _ y), join_more, <- !app_assoc.
    rewrite <- (map_cons (SerializeJSONProperty gap indent) y).
    change ((44 :: pre) ++ ?z) with (44 :: (pre ++ z)).
    rewrite (Hx indent _ f Hind)
      by (try apply (number_stop_ws [] 44); auto; simpl in Hfuel |- *; lia).
    cbn [skip_ws]. change (is_json_space 44) with false. cbv iota.
    change (44 =? 44) with true. cbv iota.
    rewrite (IH Hl ltac:(discriminate) pre post indent (acc ++ [x]) rest f)
      by (auto; simpl in Hfuel |- *; lia).
    now rewrite <- app_assoc.
Qed.


Lemma colon_shape : exists w, colon gap = 58 :: w /\ all_ws w = true.
Proof. unfold colon. destruct gap; eexists; split; reflexivity. Qed.

Lemma members_read_back (l : list (jsstring * value)) :
  Forall (fun kv => reads_back gap (snd kv)) l -> l <> [] ->
  forall pre post indent acc rest fuel,
    all_ws pre = true -> all_ws post = true -> all_ws indent = true ->
    ordered_from acc l = true ->
    forallb (fun kv => forallb unit_ok (fst kv)) l = true ->
    (list_sum (List.map (fun kv => S (vsize (snd kv))) l) <= fuel)%nat ->
    parse_members fuel
      (pre ++ join (44 :: pre) (List.map (member gap indent) l) ++ post ++ 125 :: rest) acc
    = Some (VObj (acc ++ l), rest).
Proof.
  induction l as [|[k x] l IH]; [contradiction|].
  intros Hall _ pre post indent acc rest fuel Hpre Hpost Hind Hord Hkeys Hfuel.
  inversion Hall as [|? ? Hx Hl]; subst. cbn [snd] in Hx.
  cbn [List.map list_sum snd] in Hfuel.
  cbn [ordered_from] in Hord. apply andb_true_iff in Hord as [Hk Hord].
  cbn [forallb fst] in Hkeys. apply andb_true_iff in Hkeys as [Hku Hkeys].
  destruct fuel as [|f]; [simpl in Hfuel; lia|].
  rewrite parse_members_ws by exact Hpre.
  destruct colon_shape as (w & Hcolon & Hw).
  assert (Hstep : forall tail,
    number_stop tail = true ->
    parse_members (S f) (member gap indent (k, x) ++ tail) acc =
    match skip_ws tail with
    | c3 :: r4 =>
        if c3 =? 44 then parse_members f r4 (acc ++ [(k, x)])
        else if c3 =? RBRACE then Some (VObj (acc ++ [(k, x)]), r4)
        else None
    | [] => None
    end).
  { intros tail Htail. unfold member, QuoteJSONString. cbn [fst snd].
    rewrite Hcolon. right_assoc.
    cbn [parse_members skip_ws]. change (is_json_space DQUOTE) with false.
    cbv iota. change (DQUOTE =? DQUOTE) with true. cbv iota.
    rewrite parse_quote_units by exact Hku.
    cbn [skip_ws]. change (is_json_space 58) with false. cbv iota.
    change (58 =? 58) with true. cbv iota.
    rewrite parse_value_ws by exact Hw.
    rewrite (Hx indent tail f Hind Htail) by (simpl in Hfuel; lia).
    now rewrite obj_set_append by exact Hk. }
  destruct l as [|[k' y] l'].
  - rewrite map_cons, join_one.
    rewrite Hstep by (apply number_stop_ws; auto).
    rewrite skip_ws_to by (auto; reflexivity). reflexivity.
  - rewrite map_cons, (map_cons _ (k', y)), join_more, <- !app_assoc.
    rewrite <- (map_cons (member gap indent) (k', y)).
    change ((44 :: pre) ++ ?z) with (44 :: (pre ++ z)).
    rewrite Hstep by reflexivity.
    cbn [skip_ws]. change (is_json_space 44) with false. cbv iota.
    change (44 =? 44) with true. cbv iota.
    rewrite (IH Hl ltac:(discriminate) pre post indent (acc ++ [(k, x)]) rest f)
      by (auto; simpl in Hfuel |- *; lia).
    now rewrite <- app_assoc.
Qed.

Lemma serialize_reads_back (v : value) : well_formed v = true -> reads_back gap v.
Proof.
  induction v as [| b | n | s | l IH | l IH] using value_induction;
    intros Hwf indent rest fuel Hind Hrest Hfuel;
    (destruct fuel as [|f]; [simpl in Hfuel; lia|]).
  - reflexivity.
  - destruct b; reflexivity.
  - cbn [SerializeJSONProperty].
    destruct (Number_toString_head n Hwf) as (c & r & E & Hc).
    rewrite E. cbn [app]. rewrite parse_value_number_head by exact Hc.
    change (c :: r ++ rest) with ((c :: r) ++ rest). rewrite <- E.
    now rewrite parse_number_toString.
  - cbn [SerializeJSONProperty]. unfold QuoteJSONString. right_assoc.
    cbn [parse_value skip_ws].
    change (is_json_space DQUOTE) with false. cbv iota.
    change (DQUOTE =? LBRACE) with false. change (DQUOTE =? 91) with false.
    change (DQUOTE =? DQUOTE) with true. cbv iota.
    now rewrite parse_quote_units by exact Hwf.
  - cbn [SerializeJSONProperty]. destruct l as [|x l]; [reflexivity|].
    rewrite wrap_items by discriminate. right_assoc.
    cbn [well_formed] in Hwf.
    assert (Hall : Forall (fun x => well_formed x = true /\ reads_back gap x) (x :: l)).
    { apply Forall_forall. intros y Hy. split.
      - now apply (proj1 (forallb_forall _ _) Hwf).
      - apply (proj1 (Forall_forall _ _) IH y Hy).
        now apply (proj1 (forallb_forall _ _) Hwf). }
    assert (Hg : all_ws (indent ++ gap) = true) by now apply all_ws_app.
    destruct (serialize_head gap (indent ++ gap) x) as (c & r & E & Hc).
    { now apply (proj1 (forallb_forall _ _) Hwf x (or_introl eq_refl)). }
    rewrite parse_value_array.
    + apply elements_read_back; auto using all_ws_before_item.
      * discriminate.
      * cbn [vsize] in Hfuel. lia.
    + rewrite map_cons.
      destruct (first_item_head (before_item gap (indent ++ gap))
                  (44 :: before_item gap (indent ++ gap))
                  (SerializeJSONProperty gap (indent ++ gap) x)
                  (List.map (SerializeJSONProperty gap (indent ++ gap)) l)
                  (before_item gap indent ++ 93 :: rest) c r) as [r' Hr'];
        auto using all_ws_before_item, value_head_not_space.
      exists c, r'. split; [exact Hr' | unfold value_head in Hc; lia].
  - cbn [SerializeJSONProperty]. destruct l as [|[k x] l]; [reflexivity|].
    rewrite wrap_items by discriminate. right_assoc.
    cbn [well_formed] in Hwf. apply andb_true_iff in Hwf as [Hord Hwf].
    assert (Hg : all_ws (indent ++ gap) = true) by now apply all_ws_app.
    fold (member gap (indent ++ gap)).
    unfold LBRACE. rewrite parse_value_object.
    + unfold RBRACE. apply members_read_back; auto using all_ws_before_item.
      * apply Forall_forall. intros kv Hkv.
        apply (proj1 (Forall_forall _ _) IH kv Hkv).
        pose proof (proj1 (forallb_forall _ _) Hwf kv Hkv) as H.
        now apply andb_true_iff in H as [_ H].
      * discriminate.
      * apply forallb_forall. intros kv Hkv.
        pose proof (proj1 (forallb_forall _ _) Hwf kv Hkv) as H.
        now apply andb_true_iff in H as [H _].
      * cbn [vsize] in Hfuel. lia.
    + rewrite map_cons.
      destruct (first_item_head (before_item gap (indent ++ gap))
                  (44 :: before_item gap (indent ++ gap))
                  (member gap (indent ++ gap) (k, x))
                  (List.map (member gap (indent ++ gap)) l)
                  (before_item gap indent ++ RBRACE :: rest) DQUOTE
                  ((quote_units k ++ [DQUOTE]) ++ colon gap ++
                   SerializeJSONProperty gap (indent ++ gap) x)) as [r' Hr'];
        auto using all_ws_before_item.
      exists DQUOTE, r'. split; [exact Hr' | unfold DQUOTE; lia].
Qed.

End RoundTrip.

(** *** The fuel of [JSON.parse] suffices *)

Lemma list_sum_cons (a : nat) (l : list nat) : list_sum (a :: l) = (a + list_sum l)%nat.
Proof. reflexivity. Qed.

Lemma join_length (sep : jsstring) (xs : list jsstring) :
  sep <> [] ->
  (list_sum (List.map (fun x => S (List.length x)) xs) <= S (List.length (join sep xs)))%nat.
Proof.
  intros Hsep. induction xs as [|x [|y xs] IH].
  - simpl. lia.
  - simpl. lia.
  - rewrite join_more, map_cons, list_sum_cons, !length_app.
    assert (1 <= List.length sep)%nat by (destruct sep; [contradiction | simpl; lia]).
    unfold jsstring in *. lia.
Qed.

Lemma list_sum_le {A : Type} (f g : A -> nat) (l : list A) :
  Forall (fun x => (f x <= g x)%nat) l ->
  (list_sum (List.map f l) <= list_sum (List.map g l))%nat.
Proof. induction 1; simpl; lia. Qed.

Lemma wrap_length (o c : N) (gap stepback indent : jsstring) (partial : list jsstring) :
  (list_sum (List.map (fun x => S (List.length x)) partial) <
   List.length (wrap o c gap stepback indent partial))%nat.
Proof.
  destruct partial as [|p ps]; [simpl; lia|].
  rewrite wrap_items by discriminate.
  pose proof (join_length (44 :: before_item gap indent) (p :: ps)
                ltac:(discriminate)) as H.
  cbn [List.length]. rewrite !length_app. cbn [List.length]. lia.
Qed.

Lemma vsize_le_length (gap : jsstring) (v : value) :
  well_formed v = true ->
  forall indent, (vsize v <= List.length (SerializeJSONProperty gap indent v))%nat.
Proof.
  induction v as [| b | n | s | l IH | l IH] using value_induction;
    intros Hwf indent;
    try (destruct (serialize_head gap indent _ Hwf) as (c & r & -> & _);
         simpl; lia).
  - cbn [SerializeJSONProperty vsize]. cbn [well_formed] in Hwf.
    pose proof (wrap_length 91 93 gap indent (indent ++ gap)
                  (List.map (SerializeJSONProperty gap (indent ++ gap)) l)) as H.
    rewrite map_map in H.
    assert (Hle : (list_sum (List.map (fun x => S (vsize x)) l) <=
                   list_sum (List.map (fun x => S (List.length
                       (SerializeJSONProperty gap (indent ++ gap) x))) l))%nat).
    { apply list_sum_le. apply Forall_forall. intros x Hx.
      apply le_n_S. apply (proj1 (Forall_forall _ _) IH x Hx).
      now apply (proj1 (forallb_forall _ _) Hwf). }
    lia.
  - cbn [SerializeJSONProperty vsize]. cbn [well_formed] in Hwf.
    apply andb_true_iff in Hwf as [_ Hwf].
    match goal with |- context [wrap ?o ?c ?g ?s ?i ?p] =>
      pose proof (wrap_length o c g s i p) as H end.
    rewrite map_map in H.
    match type of H with (list_sum (List.map ?g l) < _)%nat =>
      assert (Hle : (list_sum (List.map (fun kv => S (vsize (snd kv))) l) <=
                     list_sum (List.map g l))%nat) end.
    { apply list_sum_le. apply Forall_forall. intros kv Hkv.
      apply le_n_S. rewrite !length_app.
      pose proof (proj1 (forallb_forall _ _) Hwf kv Hkv) as Hkvwf.
      apply andb_true_iff in Hkvwf as [_ Hkvwf].
      pose proof (proj1 (Forall_forall _ _) IH kv Hkv Hkvwf (indent ++ gap)). lia. }
    lia.
Qed.

(** [JSON.parse] of what [JSON.stringify] prints, with any gap of spaces. *)
Theorem parse_serialize (gap : jsstring) (v : value) :
  all_ws gap = true -> well_formed v = true ->
  JSON.parse (SerializeJSONProperty gap [] v) = Some v.
Proof.
  intros Hgap Hwf. unfold JSON.parse.
  pose proof (serialize_reads_back gap Hgap v Hwf [] []
                (S (List.length (SerializeJSONProperty gap [] v)))
                eq_refl eq_refl) as H.
  rewrite app_nil_r in H. rewrite H; [reflexivity|].
  pose proof (vsize_le_length gap v Hwf []). lia.
Qed.

(** *** Braces in printed values *)

Lemma balanced_app (a b : jsstring) : balanced a -> balanced b -> balanced (a ++ b).
Proof.
  intros Ha Hb. induction Ha as [|c w Hc Hw IH|w w' Hw IHw Hw' IHw'].
  - exact Hb.
  - cbn [app]. now constructor.
  - cbn [app]. rewrite <- app_assoc. cbn [app]. now constructor.
Qed.

Lemma balanced_free (w : jsstring) : forallb free_unit w = true -> balanced w.
Proof.
  induction w as [|c w IH]; [constructor|]. cbn [forallb]. intros H.
  apply andb_true_iff in H as [Hc Hw]. constructor; auto.
Qed.

Lemma balanced_join (sep : jsstring) (xs : list jsstring) :
  balanced sep -> Forall balanced xs -> balanced (join sep xs).
Proof.
  intros Hsep Hxs. induction xs as [|x [|y xs] IH].
  - constructor.
  - rewrite join_one. now inversion Hxs.
  - rewrite join_more. inversion Hxs; subst. auto using balanced_app.
Qed.

Lemma balanced_no_backtick (w : jsstring) :
  balanced w -> Forall (fun c => c <> BACKTICK) w.
Proof.
  induction 1 as [|c w Hc Hw IH|w w' Hw IHw Hw' IHw'].
  - constructor.
  - constructor; [|exact IH]. unfold free_unit in Hc.
    apply andb_true_iff in Hc as [_ Hc]. apply negb_true_iff in Hc.
    now apply N.eqb_neq.
  - constructor; [discriminate|]. apply Forall_app. split; [exact IHw|].
    constructor; [discriminate | exact IHw'].
Qed.

(** The loop of the extractor passes over a balanced text with its count
    unchanged. *)
Lemma brace_loop_balanced (w : jsstring) :
  balanced w ->
  forall rest i count e, (1 <= count)%Z ->
  brace_loop (w ++ rest) i count e = brace_loop rest (i + List.length w) count e.
Proof.
  induction 1 as [|c w Hc Hw IH|w w' Hw IHw Hw' IHw']; intros rest i count e Hcount.
  - cbn [app List.length]. now rewrite Nat.add_0_r.
  - cbn [app brace_loop List.length]. unfold free_unit in Hc.
    apply andb_true_iff in Hc as [Hc _]. apply andb_true_iff in Hc as [H1 H2].
    apply negb_true_iff in H1, H2. rewrite H1, H2, IH by exact Hcount.
    f_equal. lia.
  - cbn [app brace_loop]. rewrite N.eqb_refl. rewrite <- app_assoc.
    rewrite IHw by lia. cbn [app brace_loop].
    change (RBRACE =? LBRACE) with false. cbv iota. rewrite N.eqb_refl.
    replace (count + 1 - 1)%Z with count by lia.
    replace (count =? 0)%Z with false by (symmetry; apply Z.eqb_neq; lia).
    rewrite IHw' by exact Hcount. f_equal.
    cbn [List.length]. rewrite length_app. cbn [List.length]. lia.
Qed.

Lemma hex_char_free (d : N) : d < 16 -> free_unit (hex_char d) = true.
Proof.
  intros H. unfold free_unit, hex_char.
  destruct (N.ltb_spec d 10); decide_tests; reflexivity.
Qed.

Lemma quote_unit_free (c : N) :
  free_unit c = true -> forallb free_unit (quote_unit c) = true.
Proof.
  intros Hc. unfold quote_unit.
  repeat match goal with
         | |- context [if ?b then _ else _] => destruct b; [reflexivity|]
         end.
  destruct (_ || _ || _).
  - unfold unicode_escape, hex4. cbn [forallb].
    rewrite !hex_char_free by (apply N.mod_lt; discriminate). reflexivity.
  - cbn [forallb]. now rewrite Hc.
Qed.

Lemma quote_units_free (s : jsstring) :
  forallb free_unit s = true -> forallb free_unit (quote_units s) = true.
Proof.
  assert (H : forall n s, (List.length s <= n)%nat -> forallb free_unit s = true ->
                          forallb free_unit (quote_units s) = true).
  { clear s. induction n as [|n IH]; intros s Hlen Hs.
    - destruct s; [reflexivity | simpl in Hlen; lia].
    - destruct s as [|c t]; [reflexivity|]. cbn [forallb] in Hs.
      apply andb_true_iff in Hs as [Hc Ht]. simpl in Hlen.
      assert (Hstep : forallb free_unit (quote_unit c ++ quote_units t) = true).
      { rewrite forallb_app, quote_unit_free, IH by (assumption || lia).
        reflexivity. }
      cbn [quote_units]. destruct (is_high_surrogate c); [|exact Hstep].
      destruct t as [|d t'].
      + now apply quote_unit_free.
      + destruct (is_low_surrogate d); [|exact Hstep].
        cbn [forallb] in Ht |- *. apply andb_true_iff in Ht as [Hd Ht'].
        simpl in Hlen. rewrite Hc, Hd, IH by (assumption || lia). reflexivity. }
  apply (H (List.length s)). lia.
Qed.

Lemma balanced_quote (s : jsstring) :
  forallb free_unit s = true -> balanced (QuoteJSONString s).
Proof.
  intros H. apply balanced_free. unfold QuoteJSONString. cbn [forallb].
  rewrite forallb_app, quote_units_free by exact H. reflexivity.
Qed.

Lemma balanced_number (x : number) :
  number_ok x = true -> balanced (Number_toString x).
Proof.
  destruct x as [neg digits n]. intros Hx. apply balanced_free.
  destruct (number_ok_cases neg digits n Hx)
    as [(-> & -> & ->)|(d & ds & -> & Hds & Hd & Hl & Hu)]; [reflexivity|].
  unfold Number_toString. cbn [ndigits nneg npoint].
  rewrite forallb_app, decimal_text_free by exact Hds. now destruct neg.
Qed.

Lemma balanced_wrap_brackets (gap stepback indent : jsstring) (partial : list jsstring) :
  forallb free_unit gap = true -> forallb free_unit stepback = true ->
  forallb free_unit indent = true -> Forall balanced partial ->
  balanced (wrap 91 93 gap stepback indent partial).
Proof.
  intros Hg Hs Hi Hp. destruct partial as [|p ps].
  - apply balanced_free. reflexivity.
  - rewrite wrap_items by discriminate.
    assert (Hb : forall x, forallb free_unit x = true ->
                           balanced (before_item gap x)).
    { intros x Hx. apply balanced_free. unfold before_item.
      destruct gap; [reflexivity | exact Hx]. }
    apply balanced_unit; [reflexivity|].
    repeat apply balanced_app; auto.
    + apply balanced_join; [|exact Hp].
      apply balanced_unit; [reflexivity | auto].
    + apply balanced_free. reflexivity.
Qed.


Lemma wrap_braces (gap stepback indent : jsstring) (partial : list jsstring) :
  partial <> [] ->
  wrap LBRACE RBRACE gap stepback indent partial =
  LBRACE :: object_inner gap stepback indent partial ++ [RBRACE].
Proof.
  intros H. rewrite wrap_items by exact H. unfold object_inner.
  now rewrite <- !app_assoc.
Qed.

Lemma balanced_object_inner (gap stepback indent : jsstring) (partial : list jsstring) :
  forallb free_unit gap = true -> forallb free_unit stepback = true ->
  forallb free_unit indent = true -> Forall balanced partial ->
  balanced (object_inner gap stepback indent partial).
Proof.
  intros Hg Hs Hi Hp.
  assert (Hb : forall x, forallb free_unit x = true ->
                         balanced (before_item gap x)).
  { intros x Hx. apply balanced_free. unfold before_item.
    destruct gap; [reflexivity | exact Hx]. }
  unfold object_inner. repeat apply balanced_app; auto.
  apply balanced_join; [|exact Hp].
  apply balanced_unit; [reflexivity | auto].
Qed.

Lemma balanced_wrap_braces (gap stepback indent : jsstring) (partial : list jsstring) :
  forallb free_unit gap = true -> forallb free_unit stepback = true ->
  forallb free_unit indent = true -> Forall balanced partial ->
  balanced (wrap LBRACE RBRACE gap stepback indent partial).
Proof.
  intros Hg Hs Hi Hp. destruct partial as [|p ps].
  - apply (balanced_braces [] []); constructor.
  - rewrite wrap_braces by discriminate.
    apply balanced_braces; [|constructor].
    now apply balanced_object_inner.
Qed.

Lemma free_colon (gap : jsstring) : forallb free_unit (colon gap) = true.
Proof. unfold colon. destruct gap; reflexivity. Qed.

(** A printed value without braces or backticks in its strings. *)
Lemma serialize_balanced (gap : jsstring) (v : value) :
  forallb free_unit gap = true ->
  plain v = true ->
  forall indent, forallb free_unit indent = true ->
  balanced (SerializeJSONProperty gap indent v).
Proof.
  intros Hgap. unfold plain.
  induction v as [| b | n | s | l IH | l IH] using value_induction;
    intros Hp indent Hind; apply andb_true_iff in Hp as [Hwf Hfree].
  - apply balanced_free. reflexivity.
  - apply balanced_free. destruct b; reflexivity.
  - now apply balanced_number.
  - now apply balanced_quote.
  - cbn [SerializeJSONProperty]. cbn [well_formed brace_free] in Hwf, Hfree.
    apply balanced_wrap_brackets; auto.
    + rewrite forallb_app. now rewrite Hind, Hgap.
    + apply Forall_forall. intros t Ht. apply in_map_iff in Ht as (x & <- & Hx).
      apply (proj1 (Forall_forall _ _) IH x Hx).
      * apply andb_true_iff. split.
        -- exact (proj1 (forallb_forall _ _) Hwf x Hx).
        -- exact (proj1 (forallb_forall _ _) Hfree x Hx).
      * rewrite forallb_app. now rewrite Hind, Hgap.
  - cbn [SerializeJSONProperty]. cbn [well_formed brace_free] in Hwf, Hfree.
    apply andb_true_iff in Hwf as [_ Hwf].
    apply balanced_wrap_braces; auto.
    + rewrite forallb_app. now rewrite Hind, Hgap.
    + apply Forall_forall. intros t Ht. apply in_map_iff in Ht as (kv & <- & Hkv).
      pose proof (proj1 (forallb_forall _ _) Hwf kv Hkv) as H1.
      pose proof (proj1 (forallb_forall _ _) Hfree kv Hkv) as H2.
      apply andb_true_iff in H1 as [_ H1]. apply andb_true_iff in H2 as [Hk H2].
      repeat apply balanced_app.
      * now apply balanced_quote.
      * apply balanced_free, free_colon.
      * apply (proj1 (Forall_forall _ _) IH kv Hkv).
        -- apply andb_true_iff. now split.
        -- rewrite forallb_app. now rewrite Hind, Hgap.
Qed.

(** ** Round trip of a function call through the converter and the extractor *)

Lemma codeBlockMatch_none (text : jsstring) :
  Forall (fun c => c <> BACKTICK) text -> codeBlockMatch text = None.
Proof.
  induction 1 as [|c text Hc Ht IH]; [reflexivity|].
  cbn [codeBlockMatch]. unfold match_here, FENCE. cbn [startsWith].
  apply N.eqb_neq in Hc. rewrite N.eqb_sym, Hc. cbn [andb]. exact IH.
Qed.

Lemma firstn_exact {A : Type} (a b : list A) : firstn (List.length a) (a ++ b) = a.
Proof. induction a as [|x a IH]; [reflexivity|]. simpl. now rewrite IH. Qed.

(** The flattened call: a line feed, the opening brace, the balanced inside
    of the object that starts with the key [tool_call], the closing brace,
    a line feed. *)
Lemma flattened_call_shape (fc : FunctionCall) :
  plain (toolCallBody fc) = true ->
  exists inner,
    partsToText [functionCallPart fc] =
      NEWLINE :: LBRACE :: (NEWLINE :: 32 :: 32 :: TOOL_CALL_KEY ++ inner) ++
      [RBRACE; NEWLINE]
    /\ balanced (NEWLINE :: 32 :: 32 :: TOOL_CALL_KEY ++ inner)
    /\ stringify2 (toolCallObject fc) =
       LBRACE :: (NEWLINE :: 32 :: 32 :: TOOL_CALL_KEY ++ inner) ++ [RBRACE].
Proof.
  intros Hp.
  exists (str ": " ++ SerializeJSONProperty (str "  ") (str "  ") (toolCallBody fc)
          ++ NL).
  assert (Hs : stringify2 (toolCallObject fc) =
               LBRACE :: (NEWLINE :: 32 :: 32 :: TOOL_CALL_KEY ++
                 str ": " ++ SerializeJSONProperty (str "  ") (str "  ")
                   (toolCallBody fc) ++ NL) ++ [RBRACE]).
  { unfold stringify2, toolCallObject. cbn [SerializeJSONProperty List.map fst snd].
    unfold wrap, TOOL_CALL_KEY, QuoteJSONString, Q, NL. cbn.
    rewrite <- !app_assoc. reflexivity. }
  split; [|split; [|exact Hs]].
  - rewrite partsToText_concat. unfold pushed. cbn [functionCallPart text
      truthy_string functionCall flat_map concat app].
    rewrite Hs, app_nil_r. unfold NL. cbn [app]. rewrite <- !app_assoc. reflexivity.
  - change (NEWLINE :: 32 :: 32 :: TOOL_CALL_KEY ++
            str ": " ++ SerializeJSONProperty (str "  ") (str "  ")
              (toolCallBody fc) ++ NL)
      with ((NEWLINE :: 32 :: 32 :: TOOL_CALL_KEY ++ str ": ") ++
            SerializeJSONProperty (str "  ") (str "  ") (toolCallBody fc) ++ NL).
    repeat apply balanced_app.
    + apply balanced_free. reflexivity.
    + apply serialize_balanced; auto.
    + apply balanced_free. reflexivity.
Qed.

(** The extractor takes the printed object out of the flattened call. *)
Lemma extract_flattened_call (fc : FunctionCall) :
  plain (toolCallBody fc) = true ->
  extractJsonText (partsToText [functionCallPart fc]) =
  Some (stringify2 (toolCallObject fc)).
Proof.
  intros Hp. destruct (flattened_call_shape fc Hp) as (inner & Ht & Hb & Hs).
  rewrite Ht, Hs. set (w := NEWLINE :: 32 :: 32 :: TOOL_CALL_KEY ++ inner) in *.
  unfold extractJsonText.
  rewrite codeBlockMatch_none.
  2:{ constructor; [discriminate|]. constructor; [discriminate|].
      apply Forall_app. split; [now apply balanced_no_backtick|].
      repeat constructor; discriminate. }
  assert (Hi : indexOf TOOL_CALL_KEY (NEWLINE :: LBRACE :: w ++ [RBRACE; NEWLINE])
               = Some 5%nat) by reflexivity.
  rewrite Hi.
  assert (Hl : lastIndexOf_from LBRACE (NEWLINE :: LBRACE :: w ++ [RBRACE; NEWLINE]) 5
               = Some 1%nat) by reflexivity.
  rewrite Hl.
  cbn [skipn brace_loop]. change (LBRACE =? LBRACE) with true. cbv iota.
  rewrite brace_loop_balanced by (assumption || lia).
  cbn [brace_loop]. change (RBRACE =? LBRACE) with false.
  change (RBRACE =? RBRACE) with true. cbv iota.
  change (0 + 1 - 1 =? 0)%Z with true. cbv iota.
  change (0 =? 0)%Z with true. cbv iota.
  unfold substring. cbn [skipn].
  replace (S (2 + List.length w) - 1)%nat
    with (List.length (LBRACE :: w ++ [RBRACE]))
    by (cbn [List.length]; rewrite length_app; cbn [List.length]; lia).
  change (LBRACE :: w ++ [RBRACE; NEWLINE])
    with ((LBRACE :: w) ++ [RBRACE] ++ [NEWLINE]).
  rewrite app_assoc. change ((LBRACE :: w) ++ [RBRACE]) with (LBRACE :: w ++ [RBRACE]).
  rewrite firstn_exact. reflexivity.
Qed.




(** ** Further properties of the streaming loop *)

Lemma split_nl_separator (x y : jsstring) :
  split_nl (x ++ NEWLINE :: y) = split_nl x ++ split_nl y.
Proof.
  induction x as [|c x IH]; [reflexivity|].
  cbn [app split_nl]. rewrite IH.
  destruct (c =? NEWLINE); [reflexivity|].
  pose proof (split_nl_nonempty x) as Hne.
  destruct (split_nl x) as [|l ls]; [contradiction | reflexivity].
Qed.

Lemma split_nl_one_line (s : jsstring) : ~ In NEWLINE s -> split_nl s = [s].
Proof.
  induction s as [|c s IH]; intros H; [reflexivity|].
  cbn [split_nl]. destruct (N.eqb_spec c NEWLINE) as [->|Hc].
  - exfalso. apply H. now left.
  - rewrite IH; [reflexivity|]. intros Hin. apply H. now right.
Qed.

Lemma last_line_no_newline (s : jsstring) : ~ In NEWLINE (last (split_nl s) []).
Proof.
  induction s as [|c s IH]; [intros []|].
  cbn [split_nl]. pose proof (split_nl_nonempty s) as Hne.
  destruct (N.eqb_spec c NEWLINE) as [->|Hc].
  - destruct (split_nl s) as [|l ls]; [contradiction | exact IH].
  - destruct (split_nl s) as [|l [|l' ls]]; [contradiction| |exact IH].
    cbn [last] in *. intros [H|H]; [now apply Hc | now apply IH].
Qed.

(** What follows the last line feed is in no complete line. *)
Lemma lines_with_rest (x rest : jsstring) :
  ~ In NEWLINE rest ->
  removelast (split_nl (x ++ rest)) = removelast (split_nl x).
Proof.
  intros H.
  rewrite split_nl_app, (split_nl_one_line (last (split_nl x) [] ++ rest)).
  - apply removelast_last.
  - intros Hin. apply in_app_or in Hin as [Hin|Hin]; [|contradiction].
    exact (last_line_no_newline x Hin).
Qed.

(** The events of a stream do not depend on how the transport cuts the body
    into reads: two responses with the same status and the same body text
    give the same outcome. *)
Theorem stream_events_independent_of_reads
    (extract : jsstring -> option (list Tool) -> option FunctionCall)
    (this : OllamaContentGenerator)
    (fetch1 fetch2 : jsstring -> OllamaRequest -> HttpResponse)
    (request : GenerateContentParameters) :
  let r1 := fetch1 (endpoint this) (ollamaRequest this request true) in
  let r2 := fetch2 (endpoint this) (ollamaRequest this request true) in
  ok r1 = ok r2 -> status r1 = status r2 -> body_text r1 = body_text r2 ->
  option_map (@concat N) (body r1) = option_map (@concat N) (body r2) ->
  generateContentStreamInternalWith extract this fetch1 request =
  generateContentStreamInternalWith extract this fetch2 request.
Proof.
  intros r1 r2 Hok Hst Hbt Hb. unfold generateContentStreamInternalWith.
  fold r1 r2. unfold apiError. rewrite Hok, Hst, Hbt.
  destruct (negb (ok r2)); [reflexivity|].
  destruct (body r1) as [b1|], (body r2) as [b2|]; try discriminate; [|reflexivity].
  injection Hb as Hb. rewrite !readLoop_lines by reflexivity.
  cbn [app]. now rewrite Hb.
Qed.

Lemma stream_events_independent_of_reads_witness :
  generateContentStreamInternal Examples.generator Examples.backend Examples.request_hi =
  generateContentStreamInternal Examples.generator
    (fun _ _ => mkHttp true 200 []
                  (Some (Examples.completion Examples.text_fenced_call))
                  (Some [concat Examples.backend_reads]))
    Examples.request_hi.
Proof.
  apply (stream_events_independent_of_reads parseToolCall Examples.generator
           Examples.backend
           (fun _ _ => mkHttp true 200 []
                         (Some (Examples.completion Examples.text_fenced_call))
                         (Some [concat Examples.backend_reads]))
           Examples.request_hi); reflexivity.
Defined.

(** Text that is not followed by a line feed is never handled: a last read
    without a line feed adds no event, and a stream that consists of one
    unterminated frame yields nothing. *)
Theorem stream_ignores_unterminated_rest
    (extract : jsstring -> option (list Tool) -> option FunctionCall)
    (tools : option (list Tool)) (reads : list jsstring) (rest : jsstring) :
  ~ In NEWLINE rest ->
  readLoop extract tools [] [] (reads ++ [rest]) = readLoop extract tools [] [] reads
  /\ readLoop extract tools [] [] [rest] = [].
Proof.
  intros H. split.
  - rewrite !readLoop_lines by reflexivity. cbn [app].
    rewrite concat_app. cbn [concat]. rewrite app_nil_r.
    now rewrite lines_with_rest.
  - rewrite readLoop_lines by reflexivity. cbn [app concat].
    rewrite app_nil_r, split_nl_one_line by exact H. reflexivity.
Qed.

Lemma stream_ignores_unterminated_rest_witness :
  readLoop parseToolCall Examples.tools_list_files [] []
           [str "data: " ++ Examples.frame_stop_call] = [].
Proof.
  apply (stream_ignores_unterminated_rest parseToolCall Examples.tools_list_files []
           (str "data: " ++ Examples.frame_stop_call)).
  intros H. vm_compute in H. intuition discriminate.
Defined.

Lemma onLine_carriesNoChunk extract tools acc line :
  carriesNoChunk line -> onLine extract tools acc line = (acc, []).
Proof.
  intros H. unfold onLine.
  destruct (startsWith (str "data: ") line) eqn:E; [|reflexivity].
  destruct H as [H|[H|[H|(v & Hv & H)]]].
  - congruence.
  - rewrite H. reflexivity.
  - rewrite H. now destruct (JS.eqb _ _).
  - rewrite Hv. destruct (JS.eqb _ _); [reflexivity|].
    unfold onChunk. destruct H as [-> | ->]; reflexivity.
Qed.

Lemma lineStart_lines (pre : jsstring) :
  lineStart pre -> exists A, forall y, split_nl (pre ++ y) = A ++ split_nl y.
Proof.
  intros [->|(p & ->)].
  - now exists [].
  - exists (split_nl p). intros y. unfold NL. rewrite <- app_assoc.
    apply split_nl_separator.
Qed.

(** A line of the stream that carries no chunk (a comment or a blank line,
    the terminator, a malformed payload) is passed over: the events are
    those of the stream without that line. *)
Theorem stream_skips_lines_without_chunk
    (extract : jsstring -> option (list Tool) -> option FunctionCall)
    (tools : option (list Tool)) (pre line post : jsstring)
    (reads1 reads2 : list jsstring) :
  lineStart pre -> ~ In NEWLINE line -> carriesNoChunk line ->
  concat reads1 = pre ++ line ++ NL ++ post ->
  concat reads2 = pre ++ post ->
  readLoop extract tools [] [] reads1 = readLoop extract tools [] [] reads2.
Proof.
  intros Hpre Hline Hno H1 H2.
  rewrite !readLoop_lines by reflexivity. cbn [app]. rewrite H1, H2.
  destruct (lineStart_lines pre Hpre) as (A & HA). rewrite !HA.
  unfold NL. cbn [app]. rewrite split_nl_separator, split_nl_one_line by exact Hline.
  pose proof (split_nl_nonempty post) as Hne.
  rewrite !removelast_app by (assumption || discriminate).
  rewrite !onLines_app.
  destruct (onLines extract tools [] A) as [acc1 ev1].
  cbn [app onLines]. rewrite onLine_carriesNoChunk by exact Hno.
  destruct (onLines extract tools acc1 (removelast (split_nl post))) as [acc2 ev2].
  reflexivity.
Qed.

Lemma stream_skips_lines_without_chunk_witness :
  readLoop parseToolCall Examples.tools_list_files [] []
    [Inputs.keep_alive ++ NL ++ concat Examples.backend_reads] =
  readLoop parseToolCall Examples.tools_list_files [] [] Examples.backend_reads.
Proof.
  apply (stream_skips_lines_without_chunk parseToolCall Examples.tools_list_files
           [] Inputs.keep_alive (concat Examples.backend_reads)).
  - left. reflexivity.
  - intros H. vm_compute in H. intuition discriminate.
  - left. reflexivity.
  - cbn [concat app]. now rewrite app_nil_r.
  - reflexivity.
Defined.

(** The calls that a stream yields when its last chunk alone carries a
    finish reason: what the extractor finds in the whole text. *)
Lemma stream_calls_at_finish
    (tools : option (list Tool)) (datas : list jsstring)
    (init : list OllamaStreamChunk) (final : OllamaStreamChunk)
    (reads : list jsstring) (reason : jsstring) :
  Forall2 frameOf datas (init ++ [final]) ->
  concat reads = sse_stream datas ->
  Forall (fun ch => chunk_finish_reason ch = None) init ->
  chunk_finish_reason final = Some reason ->
  reason <> [] ->
  flat_map responseCalls (readLoop parseToolCall tools [] [] reads) =
  match (if hasTools tools
         then parseToolCall (chunksText (init ++ [final])) tools else None) with
  | Some call => [call]
  | None => []
  end.
Proof.
  intros Hf Hr Hinit Hfin Hne.
  rewrite (readLoop_stream parseToolCall tools reads datas Hr)
    by (eapply frameOf_no_newline; eauto).
  apply Forall2_app_inv_r in Hf as (di & df & Hi & Hl & ->).
  inversion Hl as [|d ch ds chs Hd Hnil]; subst. inversion Hnil; subst.
  rewrite frameLines_app, onLines_app.
  destruct (onLines_frames parseToolCall tools di init Hi [])
    as (ev1 & He1 & _ & Ht1).
  rewrite He1. change ([] ++ chunksText init) with (chunksText init).
  change (frameLines [d]) with [str "data: " ++ d; []].
  cbn [onLines].
  destruct (onLine_frame parseToolCall tools (chunksText init) d final Hd)
    as (y & Hy & Hty & _).
  rewrite Hy, onLine_blank. cbn [snd].
  rewrite Hfin. unfold overrideOf.
  destruct reason as [|c reason]; [contradiction|].
  assert (Hacc : chunksText init ++ chunkText final = chunksText (init ++ [final])).
  { unfold chunksText. rewrite map_app, concat_app. simpl. now rewrite app_nil_r. }
  rewrite Hacc, !app_nil_r, app_assoc, flat_map_app.
  rewrite (textOnly_no_calls (ev1 ++ y)) by (apply Forall_app; split; auto).
  destruct (if hasTools tools
            then parseToolCall (chunksText (init ++ [final])) tools else None);
    reflexivity.
Qed.

(** For the same backend output, received as a stream whose last chunk alone
    carries a finish reason or as one completion, both paths surface the
    same function call, or none. *)
Theorem stream_and_completion_surface_same_call
    (tools : option (list Tool)) (datas : list jsstring)
    (init : list OllamaStreamChunk) (final : OllamaStreamChunk)
    (reads : list jsstring) (reason : jsstring)
    (completion : OllamaCompletionResponse) (choice : OllamaChoice)
    (others : list OllamaChoice) :
  Forall2 frameOf datas (init ++ [final]) ->
  concat reads = sse_stream datas ->
  Forall (fun ch => chunk_finish_reason ch = None) init ->
  chunk_finish_reason final = Some reason ->
  reason <> [] ->
  choices completion = choice :: others ->
  message_content choice = chunksText (init ++ [final]) ->
  exists r,
    convertToGeminiResponse completion tools = Ok r
    /\ flat_map responseCalls (readLoop parseToolCall tools [] [] reads) =
       responseCalls r.
Proof.
  intros Hf Hr Hinit Hfin Hne Hc Hm.
  rewrite (stream_calls_at_finish tools datas init final reads reason) by assumption.
  unfold convertToGeminiResponse, convertToGeminiResponseWith.
  rewrite Hc, Hm. eexists. split; [reflexivity|].
  destruct (if hasTools tools
            then parseToolCall (chunksText (init ++ [final])) tools else None);
    reflexivity.
Qed.

Lemma stream_and_completion_witness :
  exists r,
    convertToGeminiResponse (Examples.completion Examples.text_fenced_call)
                            Examples.tools_list_files = Ok r
    /\ flat_map responseCalls
         (readLoop parseToolCall Examples.tools_list_files [] []
                   Examples.backend_reads) = responseCalls r.
Proof.
  apply (stream_and_completion_surface_same_call Examples.tools_list_files
           [Examples.frame1; Examples.frame2] [Examples.chunk1] Examples.chunk2
           Examples.backend_reads (str "stop")
           (Examples.completion Examples.text_fenced_call)
           (mkChoice Examples.text_fenced_call (str "stop")) []).
  - exact examples_frames.
  - vm_compute. reflexivity.
  - repeat constructor.
  - reflexivity.
  - discriminate.
  - reflexivity.
  - vm_compute. reflexivity.
Defined.
